(** * librover control core: kinematics, acceleration limiting and PID

    A shallow embedding of [src/control.cpp] (namespace [Control]) and the
    properties of its specification, checked against the code.

    Numbers are modelled as the code has them.  A C++ [float] is an IEEE-754
    binary32 value and a [double] a binary64 value, both rounded to nearest
    even, written with the Standard Library's [spec_float] and its
    executable operations.  Every operation is evaluated in the format of
    its operands after the usual promotions ([FLT_EVAL_METHOD] 0): an
    expression over [float]s in binary32, one with a [double] operand in
    binary64.  The millisecond clock ticks are integers.

    Part I holds the definitions: the two number formats, the program, and
    the vocabulary of the statements.  Part II holds the lemmas and the
    theorems, one group per function of the program.  Part III holds
    further properties of the same functions. *)

From Stdlib Require Import ZArith QArith Bool List Lia.
From Stdlib Require Import Floats.SpecFloat.
Import ListNotations.

Local Open Scope Z_scope.

(** * Part I: definitions *)

(** ** IEEE-754 values *)

Definition is_nan (x : spec_float) : bool :=
  match x with S754_nan => true | _ => false end.

Definition is_zero (x : spec_float) : bool :=
  match x with S754_zero _ => true | _ => false end.

(** C's [isfinite]: neither an infinity nor a NaN. *)
Definition is_finite (x : spec_float) : bool :=
  match x with S754_zero _ | S754_finite _ _ _ => true | _ => false end.

(** The integer [(-1)^s * m]. *)
Definition signed_mantissa (s : bool) (m : positive) : Z :=
  cond_Zopp s (Zpos m).

(** The exact rational value of a finite value, [(-1)^s * m * 2^e]. *)
Definition exact_value (x : spec_float) : Q :=
  match x with
  | S754_finite s m e => (inject_Z (signed_mantissa s m) * Qpower 2 e)%Q
  | _ => 0%Q
  end.

(** [x] is positive and at least [2^j]: a finite value [m * 2^e] with
    [j <= log2 m + e], or [+infinity]. *)
Definition at_least_pow2 (j : Z) (x : spec_float) : Prop :=
  match x with
  | S754_infinity false => True
  | S754_finite false m e => j <= Z.log2 (Zpos m) + e
  | _ => False
  end.

(** ** [float]: binary32 *)
Module F32.

Definition prec : Z := 24.
Definition emax : Z := 128.

Definition add : spec_float -> spec_float -> spec_float := SFadd prec emax.
Definition sub : spec_float -> spec_float -> spec_float := SFsub prec emax.
Definition mul : spec_float -> spec_float -> spec_float := SFmul prec emax.
Definition div : spec_float -> spec_float -> spec_float := SFdiv prec emax.
Definition opp : spec_float -> spec_float := SFopp.

(** [a < b] and [a > b]; both are false as soon as one side is a NaN. *)
Definition lt (a b : spec_float) : bool := SFltb a b.
Definition gt (a b : spec_float) : bool := lt b a.

(** [a <= b] and [a == b], false on a NaN as well. *)
Definition le (a b : spec_float) : bool := SFleb a b.
Definition eq (a b : spec_float) : bool := SFeqb a b.

(** Conversion of an integer to [float]. *)
Definition of_Z (z : Z) : spec_float := binary_normalize prec emax z 0 false.

(** Rounding of a value of a wider format to [float]: the conversion
    [double -> float] of an assignment. *)
Definition round (x : spec_float) : spec_float :=
  match x with
  | S754_finite s m e => binary_normalize prec emax (signed_mantissa s m) e s
  | _ => x
  end.

(** [std::numeric_limits<float>::max()] and [::lowest()]. *)
Definition max_value : spec_float := SFmax_float prec emax.
Definition lowest : spec_float := SFopp max_value.

Definition zero : spec_float := S754_zero false.

(** [x] is a value of the format: a finite one has its canonical mantissa
    and exponent.  [1 * 2^-149] is the smallest positive one. *)
Definition valid (x : spec_float) : bool := valid_binary prec emax x.
Definition min_subnormal : spec_float := S754_finite false 1 (-149).

End F32.

(** ** [double]: binary64 *)
Module F64.

Definition prec : Z := 53.
Definition emax : Z := 1024.

Definition add : spec_float -> spec_float -> spec_float := SFadd prec emax.
Definition mul : spec_float -> spec_float -> spec_float := SFmul prec emax.
Definition sqrt : spec_float -> spec_float := SFsqrt prec emax.

(** The promotion [float -> double]: exact; the mantissa is renormalised to
    the 53 bits of the wider format. *)
Definition of_float (x : spec_float) : spec_float :=
  match x with
  | S754_finite s m e => binary_normalize prec emax (signed_mantissa s m) e s
  | _ => x
  end.

(** Conversion of an integer to [double]. *)
Definition of_Z (z : Z) : spec_float := binary_normalize prec emax z 0 false.

(** The literal [0.5]. *)
Definition half : spec_float := binary_normalize prec emax 1 (-1) false.

(** [M_PI] of <math.h>, 3.14159265358979323846 rounded to binary64:
    0x400921FB54442D18. *)
Definition M_PI : spec_float := S754_finite false 7074237752028440 (-51).

(** [pow(x, 2)] of <math.h>: the square of [x], correctly rounded. *)
Definition pow2 (x : spec_float) : spec_float := mul x x.

End F64.

(** ** The program *)
Module Control.

(** *** Data

    The structs are declared in control.hpp, which is not among the
    sources; their fields are taken to be [float]s, as every local variable
    the code copies them to.  [pid_outputs] returns the gains in fields
    [kp], [ki], [kd], here [out_kp], [out_ki], [out_kd]. *)

Record motor_data := Build_motor_data
  { fl : spec_float; fr : spec_float; rl : spec_float; rr : spec_float }.

Record robot_geometry := Build_robot_geometry
  { intra_axle_distance : spec_float;
    wheel_base : spec_float;
    wheel_radius : spec_float }.

Record robot_velocities := Build_robot_velocities
  { linear_velocity : spec_float; angular_velocity : spec_float }.

Record pid_gains := Build_pid_gains
  { kp : spec_float; ki : spec_float; kd : spec_float }.

Record pid_output_limits := Build_pid_output_limits
  { posmax : spec_float; negmax : spec_float }.

Record pid_outputs := Build_pid_outputs
  { pid_output : spec_float;
    dt : spec_float;
    error : spec_float;
    integral_error : spec_float;
    target_value : spec_float;
    measured_value : spec_float;
    out_kp : spec_float;
    out_ki : spec_float;
    out_kd : spec_float }.

Inductive robot_motion_mode_t := OPEN_LOOP | CLOSED_LOOP.

(** [std::min(a, b)] on floats: [(b < a) ? b : a]. *)
Definition std_min (a b : spec_float) : spec_float :=
  if F32.lt b a then b else a.

(** *** Kinematic functions *)
Section Kinematics.

(** The macro [RPM_TO_RADS_SEC] is defined in control.hpp as well; it is a
    parameter here, a constant of type [double]. *)
Variable RPM_TO_RADS_SEC : spec_float.

(** radius of robot's stance: [sqrt(pow(0.5 * wheel_base, 2) +
    pow(0.5 * intra_axle_distance, 2))], computed in [double] and stored
    in the [float rs]. *)
Definition stance_radius (g : robot_geometry) : spec_float :=
  F32.round
    (F64.sqrt
       (F64.add
          (F64.pow2 (F64.mul F64.half (F64.of_float (wheel_base g))))
          (F64.pow2 (F64.mul F64.half
                             (F64.of_float (intra_axle_distance g)))))).

(** circumference of robot's stance: [2 * M_PI * rs], stored in the
    [float cs]. *)
Definition stance_circumference (g : robot_geometry) : spec_float :=
  F32.round
    (F64.mul (F64.mul (F64.of_Z 2) F64.M_PI)
             (F64.of_float (stance_radius g))).

(** translate wheelspeed (rpm) into travel rate (m/s):
    [w * RPM_TO_RADS_SEC * wheel_radius], computed in [double] and stored
    in a [float]. *)
Definition travel_rate (w : spec_float) (g : robot_geometry) : spec_float :=
  F32.round
    (F64.mul (F64.mul (F64.of_float w) RPM_TO_RADS_SEC)
             (F64.of_float (wheel_radius g))).

Definition computeVelocitiesFromWheelspeeds
    (wheel_speeds : motor_data) (g : robot_geometry) : robot_velocities :=
  let cs := stance_circumference g in
  let left_travel_rate :=
    travel_rate (std_min (fl wheel_speeds) (rl wheel_speeds)) g in
  let right_travel_rate :=
    travel_rate (std_min (fr wheel_speeds) (rr wheel_speeds)) g in
  (* difference between left and right travel rates *)
  let travel_differential := F32.sub right_travel_rate left_travel_rate in
  (* compute velocities *)
  let linear := std_min left_travel_rate right_travel_rate in
  let angular := F32.div travel_differential cs in
  {| linear_velocity := linear; angular_velocity := angular |}.

End Kinematics.

Definition limitAcceleration
    (target_velocities measured_velocities delta_v_limits : robot_velocities)
    (dt : spec_float) : robot_velocities :=
  (* compute proposed acceleration *)
  let linear_acceleration :=
    F32.div (F32.sub (linear_velocity target_velocities)
                     (linear_velocity measured_velocities)) dt in
  let angular_acceleration :=
    F32.div (F32.sub (angular_velocity target_velocities)
                     (angular_velocity measured_velocities)) dt in
  (* clip the proposed acceleration into an acceptable acceleration *)
  let linear_acceleration :=
    if F32.gt linear_acceleration (linear_velocity delta_v_limits)
    then linear_velocity delta_v_limits else linear_acceleration in
  let linear_acceleration :=
    if F32.lt linear_acceleration (F32.opp (linear_velocity delta_v_limits))
    then F32.opp (linear_velocity delta_v_limits) else linear_acceleration in
  let angular_acceleration :=
    if F32.gt angular_acceleration (angular_velocity delta_v_limits)
    then angular_velocity delta_v_limits else angular_acceleration in
  let angular_acceleration :=
    if F32.lt angular_acceleration (F32.opp (angular_velocity delta_v_limits))
    then F32.opp (angular_velocity delta_v_limits) else angular_acceleration in
  (* calculate new velocities *)
  {| linear_velocity :=
       F32.add (linear_velocity measured_velocities)
               (F32.mul linear_acceleration dt);
     angular_velocity :=
       F32.add (angular_velocity measured_velocities)
               (F32.mul angular_acceleration dt) |}.

(** *** PidController *)

(** The object's members.  [time_last_] is a [std::chrono::milliseconds]: a
    count of whole milliseconds since the epoch, a signed integer of at
    least 45 bits.  Clock readings stay far inside that range, so the count
    is a [Z]. *)
Record PidController := Build_PidController
  { kp_ : spec_float;
    ki_ : spec_float;
    kd_ : spec_float;
    integral_error_ : spec_float;
    integral_error_limit_ : spec_float;
    pos_max_output_ : spec_float;
    neg_max_output_ : spec_float;
    time_last_ : Z }.

(** Every function that reads [system_clock::now()] takes the reading,
    already cast to milliseconds, as its argument [now] or [time_now]. *)

Definition PidController_new (now : Z) (g : pid_gains) : PidController :=
  {| kp_ := kp g; ki_ := ki g; kd_ := kd g;
     integral_error_ := F32.zero;
     integral_error_limit_ := F32.max_value;
     pos_max_output_ := F32.max_value;
     neg_max_output_ := F32.lowest;
     time_last_ := now |}.

Definition PidController_new_limits
    (now : Z) (g : pid_gains) (l : pid_output_limits) : PidController :=
  {| kp_ := kp g; ki_ := ki g; kd_ := kd g;
     integral_error_ := F32.zero;
     integral_error_limit_ := F32.max_value;
     pos_max_output_ := posmax l;
     neg_max_output_ := negmax l;
     time_last_ := now |}.

Definition setGains (g : pid_gains) (c : PidController) : PidController :=
  {| kp_ := kp g; ki_ := ki g; kd_ := kd g;
     integral_error_ := integral_error_ c;
     integral_error_limit_ := integral_error_limit_ c;
     pos_max_output_ := pos_max_output_ c;
     neg_max_output_ := neg_max_output_ c;
     time_last_ := time_last_ c |}.

Definition getGains (c : PidController) : pid_gains :=
  {| kp := kp_ c; ki := ki_ c; kd := kd_ c |}.

Definition setOutputLimits
    (l : pid_output_limits) (c : PidController) : PidController :=
  {| kp_ := kp_ c; ki_ := ki_ c; kd_ := kd_ c;
     integral_error_ := integral_error_ c;
     integral_error_limit_ := integral_error_limit_ c;
     pos_max_output_ := posmax l;
     neg_max_output_ := negmax l;
     time_last_ := time_last_ c |}.

Definition getOutputLimits (c : PidController) : pid_output_limits :=
  {| posmax := pos_max_output_ c; negmax := neg_max_output_ c |}.

Definition setIntegralErrorLimit
    (error_limit : spec_float) (c : PidController) : PidController :=
  {| kp_ := kp_ c; ki_ := ki_ c; kd_ := kd_ c;
     integral_error_ := integral_error_ c;
     integral_error_limit_ := error_limit;
     pos_max_output_ := pos_max_output_ c;
     neg_max_output_ := neg_max_output_ c;
     time_last_ := time_last_ c |}.

Definition getIntegralErrorLimit (c : PidController) : spec_float :=
  integral_error_limit_ c.

(** [runControl] updates [time_last_] and [integral_error_] and returns the
    diagnostic record: the result is that record and the object after the
    call.  In [(time_now - time_last_).count() / 1000] both operands are
    integers, so the division is C++'s integer division, truncating toward
    zero ([Z.quot]); the quotient is converted to [float] afterwards. *)
Definition runControl
    (time_now : Z) (target measured : spec_float) (c : PidController)
    : pid_outputs * PidController :=
  (* delta time (S) *)
  let delta_time := F32.of_Z (Z.quot (time_now - time_last_ c) 1000) in
  (* error *)
  let error := F32.sub target measured in
  (* integrate *)
  let integral_error := F32.add (integral_error_ c) error in
  (* clip integral error *)
  let integral_error :=
    if F32.gt integral_error (integral_error_limit_ c)
    then integral_error_limit_ c else integral_error in
  let integral_error :=
    if F32.lt integral_error (F32.opp (integral_error_limit_ c))
    then F32.opp (integral_error_limit_ c) else integral_error in
  (* P I D terms *)
  let p := F32.mul error (kp_ c) in
  let i := F32.mul integral_error (ki_ c) in
  let d := F32.mul delta_time (kd_ c) in
  (* compute output *)
  let output := F32.add (F32.add p i) d in
  (* clip output *)
  let output :=
    if F32.gt output (pos_max_output_ c) then pos_max_output_ c else output in
  let output :=
    if F32.lt output (neg_max_output_ c) then neg_max_output_ c else output in
  ({| pid_output := output;
      dt := delta_time;
      error := error;
      integral_error := integral_error;
      target_value := target;
      measured_value := measured;
      out_kp := kp_ c;
      out_ki := ki_ c;
      out_kd := kd_ c |},
   {| kp_ := kp_ c; ki_ := ki_ c; kd_ := kd_ c;
      integral_error_ := integral_error;
      integral_error_limit_ := integral_error_limit_ c;
      pos_max_output_ := pos_max_output_ c;
      neg_max_output_ := neg_max_output_ c;
      time_last_ := time_now |}).

(** *** SkidRobotMotionController *)

Record SkidRobotMotionController := Build_SkidRobotMotionController
  { operating_mode_ : robot_motion_mode_t;
    robot_geometry_ : robot_geometry;
    pid_gains_ : pid_gains;
    max_motor_duty_ : spec_float;
    traction_control_gain_ : spec_float;
    lpf_alpha_ : spec_float;
    max_linear_acceleration_ : spec_float;
    max_angular_acceleration_ : spec_float }.


(** The four-argument constructor. *)
Definition SkidRobotMotionController_new
    (operating_mode : robot_motion_mode_t) (g : robot_geometry)
    (gains : pid_gains) (max_motor_duty : spec_float)
    : SkidRobotMotionController :=
  {| operating_mode_ := operating_mode;
     robot_geometry_ := g;
     pid_gains_ := gains;
     max_motor_duty_ := max_motor_duty;
     traction_control_gain_ := F32.of_Z 1;
     lpf_alpha_ := F32.of_Z 1;
     max_linear_acceleration_ := F32.max_value;
     max_angular_acceleration_ := F32.max_value |}.



Definition setOperatingMode
    (operating_mode : robot_motion_mode_t) (c : SkidRobotMotionController)
    : SkidRobotMotionController :=
  {| operating_mode_ := operating_mode;
     robot_geometry_ := robot_geometry_ c;
     pid_gains_ := pid_gains_ c;
     max_motor_duty_ := max_motor_duty_ c;
     traction_control_gain_ := traction_control_gain_ c;
     lpf_alpha_ := lpf_alpha_ c;
     max_linear_acceleration_ := max_linear_acceleration_ c;
     max_angular_acceleration_ := max_angular_acceleration_ c |}.


Definition setRobotGeometry
    (g : robot_geometry) (c : SkidRobotMotionController)
    : SkidRobotMotionController :=
  {| operating_mode_ := operating_mode_ c;
     robot_geometry_ := g;
     pid_gains_ := pid_gains_ c;
     max_motor_duty_ := max_motor_duty_ c;
     traction_control_gain_ := traction_control_gain_ c;
     lpf_alpha_ := lpf_alpha_ c;
     max_linear_acceleration_ := max_linear_acceleration_ c;
     max_angular_acceleration_ := max_angular_acceleration_ c |}.

Definition getRobotGeometry (c : SkidRobotMotionController)
    : robot_geometry := robot_geometry_ c.



Definition setTractionGain
    (traction_control_gain : spec_float) (c : SkidRobotMotionController)
    : SkidRobotMotionController :=
  {| operating_mode_ := operating_mode_ c;
     robot_geometry_ := robot_geometry_ c;
     pid_gains_ := pid_gains_ c;
     max_motor_duty_ := max_motor_duty_ c;
     traction_control_gain_ := traction_control_gain;
     lpf_alpha_ := lpf_alpha_ c;
     max_linear_acceleration_ := max_linear_acceleration_ c;
     max_angular_acceleration_ := max_angular_acceleration_ c |}.


Definition setMotorMaxDuty
    (max_motor_duty : spec_float) (c : SkidRobotMotionController)
    : SkidRobotMotionController :=
  {| operating_mode_ := operating_mode_ c;
     robot_geometry_ := robot_geometry_ c;
     pid_gains_ := pid_gains_ c;
     max_motor_duty_ := max_motor_duty;
     traction_control_gain_ := traction_control_gain_ c;
     lpf_alpha_ := lpf_alpha_ c;
     max_linear_acceleration_ := max_linear_acceleration_ c;
     max_angular_acceleration_ := max_angular_acceleration_ c |}.




(** How a call of a function declared to return a [T] ends. *)
Inductive outcome (T : Type) : Type :=
| Returns (v : T)
| FlowsOffEnd.
Arguments Returns {T} v.
Arguments FlowsOffEnd {T}.

(** [Returns v]: a [return] statement was reached, with value [v].
    [FlowsOffEnd]: control reached the closing brace of the body without a
    [return]; the call yields no value (its behaviour is undefined).

    The body of [runMotionControl] estimates the robot velocities, and
    after the comment [limit acceleration] it ends: there is no [return]. *)
Definition runMotionControl
    (RPM_TO_RADS_SEC : spec_float)
    (velocity_targets : robot_velocities)
    (current_duty_cycles current_motor_speeds : motor_data)
    (c : SkidRobotMotionController) : outcome motor_data :=
  (* get estimated robot velocities *)
  let measured_velocities :=
    computeVelocitiesFromWheelspeeds RPM_TO_RADS_SEC
      current_motor_speeds (robot_geometry_ c) in
  (* limit acceleration *)
  FlowsOffEnd.

End Control.

Import Control.

(** ** Vocabulary of the statements *)

(** *** Clipping

    [if (a > hi) a = hi; if (a < lo) a = lo;] occurs three times in the
    source.  [clip] names the idiom, and [in_range] is
    [lo <= x && x <= hi]. *)
Definition clip (a lo hi : spec_float) : spec_float :=
  let a1 := if F32.gt a hi then hi else a in
  if F32.lt a1 lo then lo else a1.

Definition in_range (lo hi x : spec_float) : bool :=
  F32.le lo x && F32.le x hi.

(** *** The control law of [runControl], term by term *)
Section PidTerms.

Variable c : PidController.
Variable time_now : Z.
Variables target measured : spec_float.

Definition pid_error : spec_float := F32.sub target measured.

(** The accumulator after [integral_error_ += error] and the anti-windup
    clipping. *)
Definition pid_integral : spec_float :=
  clip (F32.add (integral_error_ c) pid_error)
       (F32.opp (integral_error_limit_ c)) (integral_error_limit_ c).

(** Whole seconds between the previous call and this one: the integer
    quotient of the millisecond difference by 1000. *)
Definition whole_seconds : Z := Z.quot (time_now - time_last_ c) 1000.

Definition pid_p : spec_float := F32.mul pid_error (kp_ c).
Definition pid_i : spec_float := F32.mul pid_integral (ki_ c).
Definition pid_d : spec_float := F32.mul (F32.of_Z whole_seconds) (kd_ c).

(** [p + i + d], before the output clipping. *)
Definition pid_sum : spec_float := F32.add (F32.add pid_p pid_i) pid_d.

(** The elapsed time in seconds as the specification words it: the
    millisecond difference divided by 1000 as a [float], fraction kept. *)
Definition elapsed_seconds : spec_float :=
  F32.div (F32.of_Z (time_now - time_last_ c)) (F32.of_Z 1000).

(** The output as the specification words it: [clamp(p + i + d)] with
    [d = dt * kd] and [dt] the elapsed time in seconds. *)
Definition spec_output : spec_float :=
  clip (F32.add (F32.add pid_p pid_i) (F32.mul elapsed_seconds (kd_ c)))
       (neg_max_output_ c) (pos_max_output_ c).

End PidTerms.

(** *** Calls of [runControl] in sequence *)

Record call := Build_call
  { call_time : Z; call_target : spec_float; call_measured : spec_float }.

Definition run_call (c : PidController) (k : call) : PidController :=
  snd (runControl (call_time k) (call_target k) (call_measured k) c).

(** The object after the calls [ks], made in that order. *)
Definition run_calls (ks : list call) (c : PidController) : PidController :=
  fold_left run_call ks c.

(** The error [target - measured] of the call is a number. *)
Definition call_error_is_number (k : call) : Prop :=
  is_nan (F32.sub (call_target k) (call_measured k)) = false.

(** *** One axis of [limitAcceleration] *)

(** The acceleration used on one axis: the proposed
    [(target - measured) / dt] after its two tests against the limit. *)
Definition clipped_acceleration (target measured limit dt : spec_float)
    : spec_float :=
  clip (F32.div (F32.sub target measured) dt) (F32.opp limit) limit.

Definition limit_axis (target measured limit dt : spec_float) : spec_float :=
  F32.add measured
          (F32.mul (clipped_acceleration target measured limit dt) dt).

(** With [dt = 0], the cases in which an axis has no usable result: the
    difference [target - measured] is zero or a NaN, or the limit is not
    finite. *)
Definition zero_dt_unusable (target measured limit : spec_float) : bool :=
  is_nan (F32.sub target measured) || is_zero (F32.sub target measured)
  || negb (is_finite limit).

(** *** Values used in the examples *)

(** The [float] nearest to the fraction [n / d]. *)
Definition fdec (n d : Z) : spec_float := F32.div (F32.of_Z n) (F32.of_Z d).

Definition velocities (linear angular : spec_float) : robot_velocities :=
  {| linear_velocity := linear; angular_velocity := angular |}.

Definition gains (p i d : spec_float) : pid_gains :=
  {| kp := p; ki := i; kd := d |}.

Definition geometry (base axle radius : spec_float) : robot_geometry :=
  {| intra_axle_distance := axle; wheel_base := base; wheel_radius := radius |}.

(** All four wheels at the same speed [s]. *)
Definition all_wheels (s : spec_float) : motor_data :=
  {| fl := s; fr := s; rl := s; rr := s |}.

(** The rpm-to-rad/s factor [2 * pi / 60] to five digits, 0.10472, as a
    [double]; it stands for the macro in the examples. *)
Definition RPM_TO_RADS_SEC_nominal : spec_float :=
  S754_finite false 7545871247651813 (-56).

(** Geometry [{wheel_base = 0.5, intra_axle_distance = 0.4,
    wheel_radius = 0.1}]. *)
Definition scenario_geometry : robot_geometry :=
  geometry (fdec 1 2) (fdec 4 10) (fdec 1 10).

(** Both stance dimensions zero, wheel radius 0.1. *)
Definition degenerate_geometry : robot_geometry :=
  geometry F32.zero F32.zero (fdec 1 10).

(** All three dimensions zero. *)
Definition zero_geometry : robot_geometry :=
  geometry F32.zero F32.zero F32.zero.

(** Limits [{linear: 0.5, angular: 0.2}], [dt = 0.1], a target of 5 m/s
    against a measured 0.1 m/s. *)
Definition scenario_limits : robot_velocities :=
  velocities (fdec 1 2) (fdec 2 10).
Definition scenario_dt : spec_float := fdec 1 10.
Definition scenario_target : robot_velocities :=
  velocities (F32.of_Z 5) F32.zero.
Definition scenario_measured : robot_velocities :=
  velocities (fdec 1 10) F32.zero.

(** Target [{5, 0}] against measured [{5, 3}]: the linear velocity is on
    target, the angular one is not. *)
Definition on_target_linear : robot_velocities :=
  velocities (F32.of_Z 5) F32.zero.
Definition measured_5_3 : robot_velocities :=
  velocities (F32.of_Z 5) (F32.of_Z 3).

(** Gains [{kp = 0, ki = 0, kd = 1}], constructed at time 0. *)
Definition pid_d_only : PidController :=
  PidController_new 0 (gains F32.zero F32.zero (F32.of_Z 1)).

(** Gains [{kp = 0, ki = 1, kd = 0}] and output limits [[-100, 100]],
    constructed at time 0. *)
Definition pid_i_only : PidController :=
  PidController_new_limits 0 (gains F32.zero (F32.of_Z 1) F32.zero)
    {| posmax := F32.of_Z 100; negmax := F32.of_Z (-100) |}.

(** Gains [{kp = 1, ki = 1, kd = 0}], constructed at time 0. *)
Definition pid_pi : PidController :=
  PidController_new 0 (gains (F32.of_Z 1) (F32.of_Z 1) F32.zero).

(** Gains [{kp = 1, ki = 0, kd = +infinity}], constructed at time 0. *)
Definition pid_kd_inf : PidController :=
  PidController_new 0 (gains (F32.of_Z 1) F32.zero (S754_infinity false)).

(** Limits with [posmax = -1 < negmax = 1]. *)
Definition inverted_limits : pid_output_limits :=
  {| posmax := F32.of_Z (-1); negmax := F32.of_Z 1 |}.

Definition two_calls : list call :=
  [ {| call_time := 1500; call_target := F32.of_Z 10;
       call_measured := F32.of_Z 8 |};
    {| call_time := 3000; call_target := F32.of_Z 10;
       call_measured := F32.of_Z 9 |} ].

(** One call whose target is a NaN. *)
Definition nan_call : list call :=
  [ {| call_time := 10; call_target := S754_nan;
       call_measured := F32.zero |} ].

(** Two calls with finite arguments whose errors overflow, to [+inf] and
    then to [-inf]. *)
Definition overflowing_calls : list call :=
  [ {| call_time := 10; call_target := F32.max_value;
       call_measured := F32.lowest |};
    {| call_time := 20; call_target := F32.lowest;
       call_measured := F32.max_value |} ].

(** ** Vocabulary of the further properties *)

(** *** Results of a rounding

    [fits prec emax x]: a finite [x] has a mantissa of at most [prec] bits
    and an exponent of at most [emax - prec], so that it is not above the
    largest value of the format.  It asks for less than [valid_binary],
    which wants the mantissa normalised as well. *)
Definition fits (prec emax : Z) (x : spec_float) : Prop :=
  match x with
  | S754_finite _ m e => Zdigits2 (Zpos m) <= prec /\ e <= emax - prec
  | _ => True
  end.

(** What the two tests against [max()] and [lowest()] do to a [float]:
    an infinity becomes the largest finite value of its sign. *)
Definition saturate (x : spec_float) : spec_float :=
  match x with
  | S754_infinity false => F32.max_value
  | S754_infinity true => F32.lowest
  | _ => x
  end.

(** *** Uses of a [PidController]

    A client calls the four methods that change the object, in any order:
    [runControl] and the three setters. *)
Inductive method :=
| RunControl (k : call)
| SetGains (g : pid_gains)
| SetOutputLimits (l : pid_output_limits)
| SetIntegralErrorLimit (error_limit : spec_float).

Definition invoke (c : PidController) (m : method) : PidController :=
  match m with
  | RunControl k => run_call c k
  | SetGains g => setGains g c
  | SetOutputLimits l => setOutputLimits l c
  | SetIntegralErrorLimit error_limit => setIntegralErrorLimit error_limit c
  end.

(** The object after the method calls [ms], made in that order. *)
Definition invoke_all (ms : list method) (c : PidController) : PidController :=
  fold_left invoke ms c.

Definition is_setter (m : method) : bool :=
  match m with RunControl _ => false | _ => true end.

(** The error [target - measured] of a call. *)
Definition call_error (k : call) : spec_float :=
  F32.sub (call_target k) (call_measured k).

(** Both arguments of the call are values of the [float] format. *)
Definition valid_call (k : call) : bool :=
  F32.valid (call_target k) && F32.valid (call_measured k).

(** The output limits the one-argument constructor sets. *)
Definition unlimited : pid_output_limits :=
  {| posmax := F32.max_value; negmax := F32.lowest |}.

(** *** Wheel speeds *)

(** The two travel rates of [computeVelocitiesFromWheelspeeds]. *)
Definition left_travel_rate (RPM_TO_RADS_SEC : spec_float) (w : motor_data)
    (g : robot_geometry) : spec_float :=
  travel_rate RPM_TO_RADS_SEC (std_min (fl w) (rl w)) g.

Definition right_travel_rate (RPM_TO_RADS_SEC : spec_float) (w : motor_data)
    (g : robot_geometry) : spec_float :=
  travel_rate RPM_TO_RADS_SEC (std_min (fr w) (rr w)) g.

(** The wheel speeds with every NaN rear speed replaced by the front speed
    of its side. *)
Definition without_nan_rear (w : motor_data) : motor_data :=
  {| fl := fl w; fr := fr w;
     rl := if is_nan (rl w) then fl w else rl w;
     rr := if is_nan (rr w) then fr w else rr w |}.

(** The wheel speeds with the two sides exchanged. *)
Definition mirrored (w : motor_data) : motor_data :=
  {| fl := fr w; fr := fl w; rl := rr w; rr := rl w |}.


(** *** More values for the examples *)

(** The errors of [two_calls], at other times. *)
Definition retimed_calls : list call :=
  [ {| call_time := 7; call_target := F32.of_Z 10;
       call_measured := F32.of_Z 8 |};
    {| call_time := 900000; call_target := F32.of_Z 10;
       call_measured := F32.of_Z 9 |} ].

(** One call of each setter. *)
Definition reconfiguration : list method :=
  [ SetGains (gains (F32.of_Z 2) (F32.of_Z 3) (F32.of_Z 4));
    SetOutputLimits inverted_limits;
    SetIntegralErrorLimit (F32.of_Z 50) ].

(** A call whose target is a NaN. *)
Definition nan_reading : call :=
  {| call_time := 10; call_target := S754_nan; call_measured := F32.zero |}.

(** A call whose error overflows to [+infinity]. *)
Definition overflowing_call : call :=
  {| call_time := 4000; call_target := F32.max_value;
     call_measured := F32.lowest |}.

(** Acceleration limits [{linear: -2, angular: -1}]. *)
Definition negative_limits : robot_velocities :=
  velocities (F32.of_Z (-2)) (F32.of_Z (-1)).

(** Left wheels at 40 and 50 rpm, right wheels at 80 and 70 rpm. *)
Definition turning_left : motor_data :=
  {| fl := F32.of_Z 40; fr := F32.of_Z 80; rl := F32.of_Z 50;
     rr := F32.of_Z 70 |}.

(** * Part II: lemmas and theorems *)

(** Case analysis on an IEEE value, closing the cases a hypothesis
    excludes. *)
Ltac float_cases x :=
  destruct x as [?s|?s| |?s ?m ?e]; try discriminate.

(** ** The order of IEEE values

    These facts hold for every [spec_float]; rounding plays no part. *)
Section Order.

Lemma SFcompare_swap (x y : spec_float) :
  SFcompare y x = option_map CompOpp (SFcompare x y).
Proof.
  destruct x as [sx|sx| |sx mx ex], y as [sy|sy| |sy my ey]; simpl;
    try destruct sx; try destruct sy; try reflexivity;
    rewrite (Z.compare_antisym ex ey);
    destruct (ex ?= ey); simpl; try reflexivity;
    change Eq with (CompOpp Eq) at 1;
    rewrite <- (Pos.compare_cont_antisym mx my Eq);
    now rewrite ?CompOpp_involutive.
Qed.

Lemma SFcompare_refl (x : spec_float) :
  is_nan x = false -> SFcompare x x = Some Eq.
Proof.
  destruct x as [s|s| |s m e]; simpl; try discriminate;
    destruct s; try reflexivity; intros _;
    rewrite Z.compare_refl;
    change (Pos.compare_cont Eq m m) with (Pos.compare m m);
    now rewrite Pos.compare_refl.
Qed.

Lemma SFcompare_defined (x y : spec_float) :
  is_nan x = false -> is_nan y = false -> exists c, SFcompare x y = Some c.
Proof.
  destruct x, y; simpl; try discriminate; intros _ _; eauto.
Qed.

Lemma fle_not_nan (x y : spec_float) :
  F32.le x y = true -> is_nan x = false /\ is_nan y = false.
Proof.
  unfold F32.le, SFleb. destruct x, y; simpl; try discriminate; auto.
Qed.

Lemma fle_refl (x : spec_float) : is_nan x = false -> F32.le x x = true.
Proof.
  intros H. unfold F32.le, SFleb. now rewrite (SFcompare_refl x H).
Qed.

(** On numbers, [not (y < x)] is [x <= y]. *)
Lemma not_flt_fle (x y : spec_float) :
  is_nan x = false -> is_nan y = false ->
  F32.lt y x = false -> F32.le x y = true.
Proof.
  intros Hx Hy. unfold F32.lt, F32.le, SFltb, SFleb.
  rewrite (SFcompare_swap x y).
  destruct (SFcompare_defined x y Hx Hy) as [c ->].
  destruct c; simpl; congruence.
Qed.

Lemma fle_not_flt (x y : spec_float) :
  F32.le x y = true -> F32.lt y x = false.
Proof.
  unfold F32.lt, F32.le, SFltb, SFleb.
  rewrite (SFcompare_swap x y).
  destruct (SFcompare x y) as [[ | | ]|]; simpl; congruence.
Qed.

(** A NaN fails every comparison. *)
Lemma nan_flt_l (x y : spec_float) : is_nan x = true -> F32.lt x y = false.
Proof. float_cases x. reflexivity. Qed.

Lemma nan_flt_r (x y : spec_float) : is_nan y = true -> F32.lt x y = false.
Proof. float_cases y. now destruct x. Qed.

Lemma nan_fle_r (x y : spec_float) : is_nan y = true -> F32.le x y = false.
Proof. float_cases y. now destruct x. Qed.

(** [0 <= l] gives [-l <= l]; the zero may have either sign. *)
Lemma opp_fle_self (l : spec_float) :
  F32.le F32.zero l = true -> F32.le (F32.opp l) l = true.
Proof.
  destruct l as [s|s| |s m e]; simpl; try discriminate;
    destruct s; try discriminate; reflexivity.
Qed.

End Order.

(** ** The clipping idiom *)
Section Clip.

Variables lo hi : spec_float.
Hypothesis lo_le_hi : F32.le lo hi = true.

Lemma clip_in_range (a : spec_float) :
  is_nan a = false -> in_range lo hi (clip a lo hi) = true.
Proof using lo_le_hi.
  intros Ha. destruct (fle_not_nan _ _ lo_le_hi) as [Hlo Hhi].
  unfold clip, in_range, F32.gt. cbv zeta.
  destruct (F32.lt hi a) eqn:E1.
  - rewrite (fle_not_flt _ _ lo_le_hi), lo_le_hi. simpl. now apply fle_refl.
  - destruct (F32.lt a lo) eqn:E2.
    + now rewrite (fle_refl lo Hlo), lo_le_hi.
    + rewrite (not_flt_fle lo a Hlo Ha E2). simpl. now apply not_flt_fle.
Qed.

(** A NaN goes through both tests unchanged. *)
Lemma clip_nan (a : spec_float) : is_nan a = true -> clip a lo hi = a.
Proof.
  intros Ha. unfold clip, F32.gt. cbv zeta.
  now rewrite (nan_flt_r hi a Ha), (nan_flt_l a lo Ha).
Qed.

(** The clipped value is in range exactly when the value was a number. *)
Lemma clip_in_range_iff (a : spec_float) :
  in_range lo hi (clip a lo hi) = negb (is_nan a).
Proof using lo_le_hi.
  destruct (is_nan a) eqn:Ha; simpl.
  - rewrite (clip_nan a Ha). unfold in_range. now rewrite (nan_fle_r lo a Ha).
  - now apply clip_in_range.
Qed.

End Clip.

(** ** Rounding never invents a NaN

    The rounding functions of [SpecFloat] return a NaN only for a negative
    mantissa, which no operation passes to them. *)
Section Rounding.

Variables prec emax : Z.

Lemma iter_pos_preserves {A : Type} (P : A -> Prop) (f : A -> A) :
  (forall x, P x -> P (f x)) ->
  forall (n : positive) (x : A), P x -> P (iter_pos f n x).
Proof.
  intros Hf. induction n as [n IH|n IH|]; simpl; intros x Hx; auto.
Qed.

Lemma shr_1_nonneg (mrs : shr_record) :
  0 <= shr_m mrs -> 0 <= shr_m (shr_1 mrs).
Proof.
  destruct mrs as [m r s]. simpl.
  destruct m as [|p|p]; simpl; try lia; intros _; destruct p; simpl; lia.
Qed.

Lemma shr_nonneg (mrs : shr_record) (e n : Z) :
  0 <= shr_m mrs -> 0 <= shr_m (fst (shr mrs e n)).
Proof.
  intros H. destruct n as [|p|p]; simpl; auto.
  now apply (iter_pos_preserves (fun r => 0 <= shr_m r) shr_1 shr_1_nonneg).
Qed.

Lemma shr_fexp_nonneg (m e : Z) (l : location) :
  0 <= m -> 0 <= shr_m (fst (shr_fexp prec emax m e l)).
Proof.
  intros H. unfold shr_fexp. apply shr_nonneg.
  destruct l as [|[ | | ]]; simpl; exact H.
Qed.

Lemma round_nearest_even_nonneg (m : Z) (l : location) :
  0 <= m -> 0 <= round_nearest_even m l.
Proof.
  intros H. destruct l as [|[ | | ]]; simpl; try lia.
  destruct (Z.even m); lia.
Qed.

Lemma binary_round_aux_not_nan (sx : bool) (mx ex : Z) (lx : location) :
  0 <= mx -> is_nan (binary_round_aux prec emax sx mx ex lx) = false.
Proof.
  intros H. unfold binary_round_aux.
  pose proof (shr_fexp_nonneg mx ex lx H) as H1.
  destruct (shr_fexp prec emax mx ex lx) as [mrs' e']. simpl in H1.
  pose proof (shr_fexp_nonneg _ e' loc_Exact
                (round_nearest_even_nonneg _ (loc_of_shr_record mrs') H1)) as H2.
  destruct (shr_fexp prec emax _ e' loc_Exact) as [mrs'' e'']. simpl in H2.
  destruct (shr_m mrs'') as [|m|m]; try reflexivity.
  - now destruct (e'' <=? emax - prec).
  - lia.
Qed.

Lemma binary_normalize_not_nan (m e : Z) (szero : bool) :
  is_nan (binary_normalize prec emax m e szero) = false.
Proof.
  destruct m as [|p|p]; simpl; try reflexivity; unfold binary_round;
    destruct (shl_align p e _) as [mz ez];
    apply binary_round_aux_not_nan; lia.
Qed.

(** A finite value plus a number is a number. *)
Lemma SFadd_not_nan (x y : spec_float) :
  is_finite x = true -> is_nan y = false ->
  is_nan (SFadd prec emax x y) = false.
Proof.
  destruct x as [sx|sx| |sx mx ex], y as [sy|sy| |sy my ey];
    simpl; try discriminate; intros _ _; try reflexivity.
  - now destruct sx, sy.
  - apply binary_normalize_not_nan.
Qed.

Lemma SFadd_not_nan_r (x y : spec_float) :
  is_nan x = false -> is_finite y = true ->
  is_nan (SFadd prec emax x y) = false.
Proof.
  destruct x as [sx|sx| |sx mx ex], y as [sy|sy| |sy my ey];
    simpl; try discriminate; intros _ _; try reflexivity.
  - now destruct sx, sy.
  - apply binary_normalize_not_nan.
Qed.

(** A finite value minus a number is a number. *)
Lemma SFsub_not_nan (x y : spec_float) :
  is_finite x = true -> is_nan y = false ->
  is_nan (SFsub prec emax x y) = false.
Proof.
  destruct x as [sx|sx| |sx mx ex], y as [sy|sy| |sy my ey];
    simpl; try discriminate; intros _ _; try reflexivity.
  - now destruct sx, sy.
  - apply binary_normalize_not_nan.
Qed.

(** A number divided by a finite value other than zero is a number. *)
Lemma SFdiv_not_nan (x y : spec_float) :
  is_nan x = false -> is_finite y = true -> is_zero y = false ->
  is_nan (SFdiv prec emax x y) = false.
Proof.
  destruct x as [sx|sx| |sx mx ex], y as [sy|sy| |sy my ey];
    simpl; try discriminate; intros _ _ _; try reflexivity.
  unfold SFdiv_core_binary.
  set (m' := match _ - _ - _ with 0 => _ | Z.pos _ => _ | Z.neg _ => _ end).
  assert (Hm : 0 <= m').
  { subst m'. destruct (_ - _ - _); try lia. apply Z.shiftl_nonneg. lia. }
  pose proof (Z.div_pos m' (Z.pos my) Hm eq_refl) as Hq.
  unfold Z.div in Hq.
  destruct (Z.div_eucl m' (Z.pos my)) as [q r].
  now apply binary_round_aux_not_nan.
Qed.

End Rounding.

(** ** Rounding keeps a value above a power of two

    A positive value of at least [2^j] stays so through every operation
    the stance computation uses, as long as [2^j] is not below the
    underflow threshold of the format.  Magnitudes are counted with
    [Z.log2] of the mantissa. *)
Section Magnitude.
Variables prec emax : Z.
Hypothesis prec_pos : 0 < prec.

Lemma Zdigits2_log2 (m : Z) : 0 < m -> Zdigits2 m = Z.log2 m + 1.
Proof.
  destruct m as [|p|p]; try lia. intros _. simpl.
  assert (H : forall q, digits2_pos q = Pos.size q)
    by (induction q; simpl; congruence).
  rewrite H. destruct p; simpl; lia.
Qed.

Lemma shr_1_div2 (mrs : shr_record) :
  0 <= shr_m mrs -> shr_m (shr_1 mrs) = Z.shiftr (shr_m mrs) 1.
Proof.
  rewrite <- Z.div2_spec. destruct mrs as [m r s]. simpl.
  destruct m as [|p|p]; intros H.
  - reflexivity.
  - now destruct p.
  - lia.
Qed.

Lemma iter_shr_1_shiftr (p : positive) :
  forall mrs : shr_record,
  0 <= shr_m mrs ->
  shr_m (iter_pos shr_1 p mrs) = Z.shiftr (shr_m mrs) (Zpos p).
Proof.
  assert (Hnn : forall q r, 0 <= shr_m r -> 0 <= shr_m (iter_pos shr_1 q r)).
  { intros q r.
    apply (iter_pos_preserves (fun r => 0 <= shr_m r) shr_1 shr_1_nonneg). }
  induction p as [p IH|p IH|]; intros mrs H; simpl.
  - rewrite IH by (apply Hnn; now apply shr_1_nonneg).
    rewrite IH by now apply shr_1_nonneg.
    rewrite shr_1_div2 by exact H.
    rewrite !Z.shiftr_shiftr by lia. f_equal. lia.
  - rewrite IH by now apply Hnn.
    rewrite IH by exact H.
    rewrite Z.shiftr_shiftr by lia. f_equal. lia.
  - now apply shr_1_div2.
Qed.

(** One [shr_fexp] keeps a positive mantissa positive and its magnitude
    unchanged, as long as the value is above the underflow threshold. *)
Lemma shr_fexp_magnitude (m e : Z) (l : location) :
  0 < m -> emin prec emax <= Z.log2 m + e ->
  0 < shr_m (fst (shr_fexp prec emax m e l))
  /\ Z.log2 (shr_m (fst (shr_fexp prec emax m e l)))
     + snd (shr_fexp prec emax m e l) = Z.log2 m + e.
Proof.
  intros Hm Hj. unfold shr_fexp, shr.
  rewrite (Zdigits2_log2 m Hm).
  assert (Hrec : shr_m (shr_record_of_loc m l) = m)
    by (destruct l as [|[ | | ]]; reflexivity).
  destruct (fexp prec emax (Z.log2 m + 1 + e) - e) as [|n|n] eqn:En;
    cbn [fst snd]; rewrite ?Hrec; try (split; [exact Hm|reflexivity]).
  rewrite iter_shr_1_shiftr by (rewrite Hrec; lia). rewrite Hrec.
  assert (Hn : Z.pos n <= Z.log2 m).
  { unfold fexp in En. lia. }
  assert (Hs : 0 < Z.shiftr m (Z.pos n)).
  { destruct (Z.lt_trichotomy 0 (Z.shiftr m (Z.pos n))) as [H|[H|H]].
    - exact H.
    - symmetry in H. apply Z.shiftr_eq_0_iff in H. lia.
    - pose proof (proj2 (Z.shiftr_nonneg m (Z.pos n))). lia. }
  split; [exact Hs|].
  rewrite Z.log2_shiftr by exact Hm. lia.
Qed.

Lemma round_nearest_even_ge (m : Z) (l : location) :
  m <= round_nearest_even m l.
Proof.
  destruct l as [|[ | | ]]; simpl; try lia. destruct (Z.even m); lia.
Qed.

(** Rounding a positive value of at least [2^j], [j] not below the
    underflow threshold, gives a positive value of at least [2^j]. *)
Lemma binary_round_aux_at_least (m e : Z) (l : location) (j : Z) :
  0 < m -> j <= Z.log2 m + e -> emin prec emax <= j ->
  at_least_pow2 j (binary_round_aux prec emax false m e l).
Proof.
  intros Hm Hj Hmin. unfold binary_round_aux.
  destruct (shr_fexp_magnitude m e l Hm ltac:(lia)) as [H1 H1'].
  destruct (shr_fexp prec emax m e l) as [mrs1 e1]. cbn [fst snd] in H1, H1'.
  pose proof (round_nearest_even_ge (shr_m mrs1) (loc_of_shr_record mrs1)) as Hr.
  set (m2 := round_nearest_even (shr_m mrs1) (loc_of_shr_record mrs1)) in *.
  pose proof (Z.log2_le_mono _ _ Hr) as Hl.
  destruct (shr_fexp_magnitude m2 e1 loc_Exact ltac:(lia) ltac:(lia))
    as [H2 H2'].
  destruct (shr_fexp prec emax m2 e1 loc_Exact) as [mrs2 e2].
  cbn [fst snd] in H2, H2'.
  destruct (shr_m mrs2) as [|m3|m3]; try lia.
  destruct (e2 <=? emax - prec); cbn [at_least_pow2]; [lia|exact I].
Qed.

Lemma shl_align_magnitude (m : positive) (e e' : Z) :
  Z.log2 (Zpos (fst (shl_align m e e'))) + snd (shl_align m e e')
  = Z.log2 (Zpos m) + e.
Proof.
  unfold shl_align. destruct (e' - e) as [|d|d] eqn:Ed; cbn [fst snd];
    try reflexivity.
  rewrite (Pos.iter_swap_gen _ _ Zpos xO (Z.mul 2)) by reflexivity.
  change (Pos.iter (Z.mul 2) (Zpos m) d) with (Z.shiftl (Zpos m) (Zpos d)).
  rewrite Z.log2_shiftl by lia. lia.
Qed.

Lemma binary_round_at_least (m : positive) (e j : Z) :
  j <= Z.log2 (Zpos m) + e -> emin prec emax <= j ->
  at_least_pow2 j (binary_round prec emax false m e).
Proof.
  intros Hj Hmin. unfold binary_round.
  pose proof (shl_align_magnitude m e
                (fexp prec emax (Zpos (digits2_pos m) + e))) as H.
  destruct (shl_align m e _) as [mz ez]. cbn [fst snd] in H.
  apply binary_round_aux_at_least; lia.
Qed.

(** Conversions between formats and plain roundings: [of_float], [round]. *)
Lemma renormalize_at_least (x : spec_float) (j : Z) :
  at_least_pow2 j x -> emin prec emax <= j ->
  at_least_pow2 j
    (match x with
     | S754_finite s m e =>
         binary_normalize prec emax (signed_mantissa s m) e s
     | _ => x
     end).
Proof.
  destruct x as [s|s| |s m e]; cbn [at_least_pow2]; try contradiction; auto.
  destruct s; try contradiction. intros Hj Hmin.
  cbn [signed_mantissa cond_Zopp binary_normalize].
  now apply binary_round_at_least.
Qed.

Lemma SFmul_at_least (x y : spec_float) (jx jy : Z) :
  at_least_pow2 jx x -> at_least_pow2 jy y -> emin prec emax <= jx + jy ->
  at_least_pow2 (jx + jy) (SFmul prec emax x y).
Proof.
  destruct x as [sx|sx| |sx mx ex], y as [sy|sy| |sy my ey];
    cbn [at_least_pow2 SFmul xorb];
    try contradiction; try destruct sx; try destruct sy;
    try contradiction; auto.
  intros Hx Hy Hmin. cbn [xorb].
  apply binary_round_aux_at_least; try lia.
  pose proof (Z.log2_mul_below (Zpos mx) (Zpos my)).
  change (Zpos (mx * my)) with (Zpos mx * Zpos my). lia.
Qed.

Lemma SFadd_at_least (x y : spec_float) (jx jy : Z) :
  at_least_pow2 jx x -> at_least_pow2 jy y -> emin prec emax <= jx ->
  at_least_pow2 jx (SFadd prec emax x y).
Proof.
  destruct x as [sx|sx| |sx mx ex], y as [sy|sy| |sy my ey];
    cbn [at_least_pow2 SFadd];
    try contradiction; try destruct sx; try destruct sy;
    try contradiction; auto.
  intros Hx Hy Hmin.
  pose proof (shl_align_magnitude mx ex (Z.min ex ey)) as Hax.
  assert (Hsx : snd (shl_align mx ex (Z.min ex ey)) = Z.min ex ey).
  { unfold shl_align. destruct (Z.min ex ey - ex) eqn:E; cbn [snd]; lia. }
  rewrite Hsx in Hax.
  destruct (shl_align mx ex (Z.min ex ey)) as [ax ex'].
  destruct (shl_align my ey (Z.min ex ey)) as [ay ey'].
  cbn [fst snd cond_Zopp] in *.
  change (Zpos ax + Zpos ay) with (Zpos (ax + ay)). cbn [binary_normalize].
  apply binary_round_at_least; try lia.
  pose proof (Z.log2_le_mono (Zpos ax) (Zpos (ax + ay))). lia.
Qed.

Lemma SFadd_at_least_r (x y : spec_float) (jx jy : Z) :
  at_least_pow2 jx x -> at_least_pow2 jy y -> emin prec emax <= jy ->
  at_least_pow2 jy (SFadd prec emax x y).
Proof.
  destruct x as [sx|sx| |sx mx ex], y as [sy|sy| |sy my ey];
    cbn [at_least_pow2 SFadd];
    try contradiction; try destruct sx; try destruct sy;
    try contradiction; auto.
  intros Hx Hy Hmin.
  pose proof (shl_align_magnitude my ey (Z.min ex ey)) as Hay.
  assert (Hsy : snd (shl_align my ey (Z.min ex ey)) = Z.min ex ey).
  { unfold shl_align. destruct (Z.min ex ey - ey) eqn:E; cbn [snd]; lia. }
  rewrite Hsy in Hay.
  destruct (shl_align mx ex (Z.min ex ey)) as [ax ex'].
  destruct (shl_align my ey (Z.min ex ey)) as [ay ey'].
  cbn [fst snd cond_Zopp] in *.
  change (Zpos ax + Zpos ay) with (Zpos (ax + ay)). cbn [binary_normalize].
  apply binary_round_at_least; try lia.
  pose proof (Z.log2_le_mono (Zpos ay) (Zpos (ax + ay))). lia.
Qed.

(** The integer square root of a number of [t + 1] bits has more than
    [t / 2] bits. *)
Lemma log2_sqrtrem (n : Z) :
  0 < n ->
  0 < fst (Z.sqrtrem n) /\ Z.log2 n / 2 <= Z.log2 (fst (Z.sqrtrem n)).
Proof.
  intros Hn. pose proof (Z.sqrtrem_spec n ltac:(lia)) as H.
  destruct (Z.sqrtrem n) as [q r]. cbn [fst]. destruct H as [Hq Hr].
  assert (Hq0 : 0 < q) by nia.
  split; [exact Hq0|].
  apply Z.log2_le_pow2; [exact Hq0|].
  assert (Hk : 0 <= Z.log2 n / 2)
    by (apply Z.div_pos; [apply Z.log2_nonneg|lia]).
  pose proof (Z.mul_div_le (Z.log2 n) 2 ltac:(lia)) as Hk2.
  set (k := Z.log2 n / 2) in *.
  destruct (Z.le_gt_cases (2 ^ k) q) as [Hle|Hgt]; [exact Hle|exfalso].
  pose proof (proj1 (Z.log2_spec n Hn)) as Hlow.
  assert (Hpow : 2 ^ k * 2 ^ k <= 2 ^ Z.log2 n).
  { rewrite <- Z.pow_add_r by lia. apply Z.pow_le_mono_r; lia. }
  assert (0 < 2 ^ k) by (apply Z.pow_pos_nonneg; lia).
  nia.
Qed.

Lemma SFsqrt_at_least (x : spec_float) (j : Z) :
  at_least_pow2 j x -> emin prec emax <= j / 2 ->
  at_least_pow2 (j / 2) (SFsqrt prec emax x).
Proof.
  destruct x as [s|s| |s m e]; cbn [at_least_pow2 SFsqrt];
    try contradiction; destruct s; try contradiction; auto.
  intros Hj Hmin. unfold SFsqrt_core_binary.
  set (e' := Z.min _ (Z.div2 e)).
  assert (He' : 2 * e' <= e).
  { subst e'. rewrite Z.div2_div.
    pose proof (Z.mul_div_le e 2 ltac:(lia)). lia. }
  set (m' := match e - 2 * e' with 0 => _ | Z.pos _ => _ | Z.neg _ => _ end).
  assert (Hm' : 0 < m' /\ Z.log2 m' = Z.log2 (Zpos m) + (e - 2 * e')).
  { subst m'. destruct (e - 2 * e') as [|p|p] eqn:E; try lia.
    rewrite Z.log2_shiftl by lia. split; [|lia].
    rewrite Z.shiftl_mul_pow2 by lia.
    apply Z.mul_pos_pos; [lia|apply Z.pow_pos_nonneg; lia]. }
  destruct Hm' as [Hpos Hlog].
  destruct (log2_sqrtrem m' Hpos) as [Hq Hlq].
  destruct (Z.sqrtrem m') as [q r]. cbn [fst] in Hq, Hlq.
  apply binary_round_aux_at_least; try assumption.
  rewrite Hlog in Hlq.
  replace (Z.log2 (Z.pos m) + (e - 2 * e'))
    with ((Z.log2 (Z.pos m) + e) + (- e') * 2) in Hlq by lia.
  rewrite Z.div_add in Hlq by lia.
  pose proof (Z.div_le_mono j (Z.log2 (Z.pos m) + e) 2). lia.
Qed.
End Magnitude.

Lemma at_least_weaken (j j' : Z) (x : spec_float) :
  j' <= j -> at_least_pow2 j x -> at_least_pow2 j' x.
Proof.
  destruct x as [s|s| |s m e]; cbn [at_least_pow2]; auto.
  destruct s; auto. lia.
Qed.

Lemma at_least_positive (j : Z) (x : spec_float) :
  at_least_pow2 j x -> F32.lt F32.zero x = true.
Proof.
  destruct x as [s|s| |s m e]; cbn [at_least_pow2];
    try contradiction; now destruct s.
Qed.

(** A positive [float] is at least [2^-148], or it is the smallest
    subnormal [2^-149]. *)
Lemma positive_float_cases (x : spec_float) :
  F32.valid x = true -> F32.lt F32.zero x = true ->
  at_least_pow2 (-148) x \/ x = F32.min_subnormal.
Proof.
  destruct x as [s|s| |s m e]; try discriminate;
    try (destruct s; try discriminate; intros _ _; now left).
  destruct s; try discriminate. intros Hv _.
  unfold F32.valid, valid_binary, bounded, canonical_mantissa in Hv.
  apply andb_prop in Hv. destruct Hv as [Hc _].
  apply Z.eqb_eq in Hc.
  change (Zpos (digits2_pos m)) with (Zdigits2 (Zpos m)) in Hc.
  rewrite Zdigits2_log2 in Hc by lia.
  unfold fexp, emin, F32.prec, F32.emax in Hc.
  pose proof (Z.log2_nonneg (Zpos m)) as Hl.
  destruct (Z.le_gt_cases (-148) (Z.log2 (Zpos m) + e)) as [Hb|Hs].
  - left. exact Hb.
  - right. assert (He : e = -149) by lia.
    assert (Hm : Z.log2 (Zpos m) = 0) by lia.
    subst e. unfold F32.min_subnormal. f_equal.
    destruct m as [p|p|]; try reflexivity; simpl in Hm; lia.
Qed.


(** ** PidController::runControl *)

(** What [runControl] computes, in the terms of the control law. *)
Lemma runControl_unfold
    (c : PidController) (time_now : Z) (target measured : spec_float) :
  runControl time_now target measured c =
  ({| pid_output := clip (pid_sum c time_now target measured)
                         (neg_max_output_ c) (pos_max_output_ c);
      dt := F32.of_Z (whole_seconds c time_now);
      error := pid_error target measured;
      integral_error := pid_integral c target measured;
      target_value := target;
      measured_value := measured;
      out_kp := kp_ c; out_ki := ki_ c; out_kd := kd_ c |},
   {| kp_ := kp_ c; ki_ := ki_ c; kd_ := kd_ c;
      integral_error_ := pid_integral c target measured;
      integral_error_limit_ := integral_error_limit_ c;
      pos_max_output_ := pos_max_output_ c;
      neg_max_output_ := neg_max_output_ c;
      time_last_ := time_now |}).
Proof. reflexivity. Qed.

(** *** C4 *)

(** C4, at the input where the code and the claim part: two calls 1500 ms
    apart on a controller with gains [{kp = 0, ki = 0, kd = 1}], target and
    measured both 0.  The code's [delta_time] is the integer quotient
    [1500 / 1000 = 1], so the output is 1; with [dt] the elapsed time in
    seconds, 1.5, the claimed output [clamp(p + i + dt * kd)] is 1.5. *)
Theorem C4_runControl_truncates_elapsed_time :
  let out := fst (runControl 1500 F32.zero F32.zero pid_d_only) in
  pid_output out = F32.of_Z 1 /\
  dt out = F32.of_Z 1 /\
  elapsed_seconds pid_d_only 1500 = fdec 3 2 /\
  spec_output pid_d_only 1500 F32.zero F32.zero = fdec 3 2 /\
  F32.eq (pid_output out) (spec_output pid_d_only 1500 F32.zero F32.zero)
  = false.
Proof. vm_compute. repeat split. Qed.

(** *** C5 *)

(** C5, as the code has it: when [negmax <= posmax], the returned output
    lies within [[negmax, posmax]] exactly when the unclipped sum
    [p + i + d] is a number; a NaN sum is returned as it is. *)
Theorem C5_output_within_limits_iff_sum_is_number
    (c : PidController) (time_now : Z) (target measured : spec_float) :
  F32.le (neg_max_output_ c) (pos_max_output_ c) = true ->
  in_range (neg_max_output_ c) (pos_max_output_ c)
           (pid_output (fst (runControl time_now target measured c)))
  = negb (is_nan (pid_sum c time_now target measured)).
Proof.
  intros H. rewrite runControl_unfold. simpl.
  now apply clip_in_range_iff.
Qed.

Lemma C5_witness :
  in_range (neg_max_output_ pid_i_only) (pos_max_output_ pid_i_only)
           (pid_output (fst (runControl 1500 (F32.of_Z 10) (F32.of_Z 8)
                                        pid_i_only)))
  = negb (is_nan (pid_sum pid_i_only 1500 (F32.of_Z 10) (F32.of_Z 8))).
Proof.
  apply (C5_output_within_limits_iff_sum_is_number
           pid_i_only 1500 (F32.of_Z 10) (F32.of_Z 8)).
  reflexivity.
Defined.

(** C5 fails as stated: limits [[-100, 100]], gains
    [{kp = 0, ki = 1, kd = 0}], target [FLT_MAX] and measured [-FLT_MAX],
    all finite.  The error overflows to [+inf], [p = inf * 0] is a NaN, so
    is the sum, and a NaN passes both output tests. *)
Lemma C5_counterexample :
  let out := fst (runControl 10 F32.max_value F32.lowest pid_i_only) in
  F32.le (neg_max_output_ pid_i_only) (pos_max_output_ pid_i_only) = true /\
  is_finite F32.max_value = true /\ is_finite F32.lowest = true /\
  pid_output out = S754_nan /\
  in_range (neg_max_output_ pid_i_only) (pos_max_output_ pid_i_only)
           (pid_output out) = false.
Proof. vm_compute. repeat split. Qed.

(** In particular the output is within the limits whenever the three terms
    are finite: their sum may overflow, to an infinity, and that is
    clipped. *)
Lemma output_within_limits_finite_terms
    (c : PidController) (time_now : Z) (target measured : spec_float) :
  F32.le (neg_max_output_ c) (pos_max_output_ c) = true ->
  is_finite (pid_p c target measured) = true ->
  is_finite (pid_i c target measured) = true ->
  is_finite (pid_d c time_now) = true ->
  in_range (neg_max_output_ c) (pos_max_output_ c)
           (pid_output (fst (runControl time_now target measured c))) = true.
Proof.
  intros Hl Hp Hi Hd. rewrite runControl_unfold. cbn [fst pid_output].
  rewrite (clip_in_range_iff _ _ Hl). apply negb_true_iff.
  unfold pid_sum. apply SFadd_not_nan_r; [|exact Hd].
  apply SFadd_not_nan; [exact Hp|]. now destruct (pid_i c target measured).
Qed.

(** *** C6 *)
Section Accumulator.

Lemma run_call_integral (c : PidController) (k : call) :
  integral_error_ (run_call c k) =
  pid_integral c (call_target k) (call_measured k).
Proof. reflexivity. Qed.

(** Between finite bounds there are only finite values. *)
Lemma in_range_finite (l x : spec_float) :
  is_finite l = true -> in_range (F32.opp l) l x = true -> is_finite x = true.
Proof.
  unfold in_range, F32.le, SFleb.
  destruct l as [sl|sl| |sl ml el], x as [sx|sx| |sx mx ex];
    simpl; try discriminate; try reflexivity; intros _;
    destruct sl, sx; simpl; discriminate.
Qed.

Lemma zero_in_range (l : spec_float) :
  F32.le F32.zero l = true -> in_range (F32.opp l) l F32.zero = true.
Proof.
  unfold in_range. intros H. rewrite H, andb_true_r. revert H.
  destruct l as [s|s| |s m e]; simpl; try discriminate;
    destruct s; try discriminate; reflexivity.
Qed.

(** One call keeps the accumulator between finite bounds when its error
    is a number. *)
Lemma run_call_in_range (c : PidController) (k : call) :
  F32.le F32.zero (integral_error_limit_ c) = true ->
  is_finite (integral_error_limit_ c) = true ->
  in_range (F32.opp (integral_error_limit_ c)) (integral_error_limit_ c)
           (integral_error_ c) = true ->
  call_error_is_number k ->
  in_range (F32.opp (integral_error_limit_ c)) (integral_error_limit_ c)
           (integral_error_ (run_call c k)) = true.
Proof.
  intros Hpos Hfin Hinv Hk. rewrite run_call_integral. unfold pid_integral.
  apply clip_in_range.
  - now apply opp_fle_self.
  - apply SFadd_not_nan; [now apply (in_range_finite _ _ Hfin)|exact Hk].
Qed.

(** The same through a sequence of calls, by induction on the sequence. *)
Lemma run_calls_in_range (ks : list call) :
  forall c : PidController,
  F32.le F32.zero (integral_error_limit_ c) = true ->
  is_finite (integral_error_limit_ c) = true ->
  in_range (F32.opp (integral_error_limit_ c)) (integral_error_limit_ c)
           (integral_error_ c) = true ->
  Forall call_error_is_number ks ->
  in_range (F32.opp (integral_error_limit_ c)) (integral_error_limit_ c)
           (integral_error_ (run_calls ks c)) = true.
Proof.
  induction ks as [|k ks IH]; intros c Hpos Hfin Hinv Hks; simpl.
  - exact Hinv.
  - inversion Hks as [|k' ks' Hk Hks']; subst.
    apply (IH (run_call c k) Hpos Hfin); [|exact Hks'].
    exact (run_call_in_range c k Hpos Hfin Hinv Hk).
Qed.

End Accumulator.

(** C6, as the code has it: for a finite non-negative
    [integral_error_limit], from an accumulator of 0 (as both constructors
    leave it) and through every sequence of calls whose errors
    [target - measured] are numbers, the accumulator stays within
    [[-integral_error_limit, +integral_error_limit]].  Each call adds the
    error to the accumulator and then clips it to that interval, and for
    any non-negative limit the accumulator is within it after the call
    exactly when that sum is a number. *)
Theorem C6_integral_error_within_limit
    (c0 : PidController) (ks : list call) :
  integral_error_ c0 = F32.zero ->
  F32.le F32.zero (integral_error_limit_ c0) = true ->
  is_finite (integral_error_limit_ c0) = true ->
  Forall call_error_is_number ks ->
  in_range (F32.opp (integral_error_limit_ c0)) (integral_error_limit_ c0)
           (integral_error_ (run_calls ks c0)) = true
  /\ (forall (c : PidController) (k : call),
        integral_error_ (run_call c k) =
        clip (F32.add (integral_error_ c)
                      (F32.sub (call_target k) (call_measured k)))
             (F32.opp (integral_error_limit_ c)) (integral_error_limit_ c))
  /\ (forall (c : PidController) (k : call),
        F32.le F32.zero (integral_error_limit_ c) = true ->
        in_range (F32.opp (integral_error_limit_ c))
                 (integral_error_limit_ c)
                 (integral_error_ (run_call c k))
        = negb (is_nan (F32.add (integral_error_ c)
                                (F32.sub (call_target k)
                                         (call_measured k))))).
Proof.
  intros H0 Hpos Hfin Hks. repeat split.
  - apply run_calls_in_range; try assumption.
    rewrite H0. now apply zero_in_range.
  - intros c k Hc. rewrite run_call_integral. unfold pid_integral, pid_error.
    apply clip_in_range_iff. now apply opp_fle_self.
Qed.

Lemma C6_witness :
  in_range (F32.opp (integral_error_limit_ pid_pi))
           (integral_error_limit_ pid_pi)
           (integral_error_ (run_calls two_calls pid_pi)) = true
  /\ (forall (c : PidController) (k : call),
        integral_error_ (run_call c k) =
        clip (F32.add (integral_error_ c)
                      (F32.sub (call_target k) (call_measured k)))
             (F32.opp (integral_error_limit_ c)) (integral_error_limit_ c))
  /\ (forall (c : PidController) (k : call),
        F32.le F32.zero (integral_error_limit_ c) = true ->
        in_range (F32.opp (integral_error_limit_ c))
                 (integral_error_limit_ c)
                 (integral_error_ (run_call c k))
        = negb (is_nan (F32.add (integral_error_ c)
                                (F32.sub (call_target k)
                                         (call_measured k))))).
Proof.
  apply (C6_integral_error_within_limit pid_pi two_calls);
    try reflexivity.
  repeat constructor.
Defined.

(** C6 fails as stated.  With the default limit [FLT_MAX], one call whose
    target is a NaN leaves a NaN in the accumulator.  With the limit set to
    [+infinity], two calls with finite arguments do the same: the first
    error overflows to [+inf], the second to [-inf], and their sum is a
    NaN. *)
Lemma C6_counterexample :
  (let c := run_calls nan_call pid_pi in
   F32.le F32.zero (integral_error_limit_ c) = true /\
   integral_error_ c = S754_nan /\
   in_range (F32.opp (integral_error_limit_ c)) (integral_error_limit_ c)
            (integral_error_ c) = false)
  /\
  (let c := run_calls overflowing_calls
              (setIntegralErrorLimit (S754_infinity false) pid_pi) in
   F32.le F32.zero (integral_error_limit_ c) = true /\
   integral_error_ c = S754_nan /\
   in_range (F32.opp (integral_error_limit_ c)) (integral_error_limit_ c)
            (integral_error_ c) = false).
Proof. vm_compute. repeat split. Qed.

(** *** C10 *)

Lemma quot_1000_small (z : Z) : -1000 < z < 1000 -> Z.quot z 1000 = 0.
Proof.
  intros H. destruct (Z.le_gt_cases 0 z) as [Hz|Hz].
  - apply Z.quot_small. lia.
  - replace z with (- (- z)) by lia.
    rewrite Z.quot_opp_l by lia.
    rewrite Z.quot_small; lia.
Qed.

(** Zero times a finite value is a zero; zero times anything else is a
    NaN. *)
Lemma mul_zero_l (s : bool) (x : spec_float) :
  is_zero (F32.mul (S754_zero s) x) = is_finite x /\
  is_nan (F32.mul (S754_zero s) x) = negb (is_finite x).
Proof. destruct x; simpl; auto. Qed.

(** C10, as the code has it: [delta_time], also returned in the [dt] field,
    is the integer quotient of the millisecond difference by 1000,
    converted to [float] afterwards, so it counts whole seconds.  For two
    calls less than 1000 ms apart it is exactly 0, and the derivative term
    [d = delta_time * kd], the third summand of the clipped output, is then
    a zero for every finite [kd]. *)
Theorem C10_delta_time_counts_whole_seconds
    (c : PidController) (time_now : Z) (target measured : spec_float) :
  -1000 < time_now - time_last_ c < 1000 ->
  is_finite (kd_ c) = true ->
  let out := fst (runControl time_now target measured c) in
  (forall (c' : PidController) (now' : Z) (t' m' : spec_float),
      dt (fst (runControl now' t' m' c')) =
      F32.of_Z (Z.quot (now' - time_last_ c') 1000))
  /\ dt out = F32.zero
  /\ pid_output out =
     clip (F32.add (F32.add (pid_p c target measured)
                            (pid_i c target measured))
                   (F32.mul (dt out) (kd_ c)))
          (neg_max_output_ c) (pos_max_output_ c)
  /\ is_zero (F32.mul (dt out) (kd_ c)) = true.
Proof.
  intros Hms Hkd out.
  assert (Hdt : dt out = F32.zero).
  { subst out. rewrite runControl_unfold. simpl. unfold whole_seconds.
    now rewrite (quot_1000_small _ Hms). }
  repeat split.
  - exact Hdt.
  - rewrite Hdt. unfold F32.zero.
    now rewrite (proj1 (mul_zero_l false (kd_ c))).
Qed.

Lemma C10_witness :
  let out := fst (runControl 999 (F32.of_Z 10) (F32.of_Z 8) pid_d_only) in
  (forall (c' : PidController) (now' : Z) (t' m' : spec_float),
      dt (fst (runControl now' t' m' c')) =
      F32.of_Z (Z.quot (now' - time_last_ c') 1000))
  /\ dt out = F32.zero
  /\ pid_output out =
     clip (F32.add (F32.add (pid_p pid_d_only (F32.of_Z 10) (F32.of_Z 8))
                            (pid_i pid_d_only (F32.of_Z 10) (F32.of_Z 8)))
                   (F32.mul (dt out) (kd_ pid_d_only)))
          (neg_max_output_ pid_d_only) (pos_max_output_ pid_d_only)
  /\ is_zero (F32.mul (dt out) (kd_ pid_d_only)) = true.
Proof.
  apply (C10_delta_time_counts_whole_seconds
           pid_d_only 999 (F32.of_Z 10) (F32.of_Z 8)).
  - simpl. lia.
  - reflexivity.
Defined.

(** C10 fails as stated for a [kd] that is not finite: two calls 500 ms
    apart with [kd = +infinity] give [delta_time = 0], and the derivative
    term [0 * inf] is a NaN, not 0; the returned output is that NaN. *)
Lemma C10_counterexample :
  let out := fst (runControl 500 (F32.of_Z 10) (F32.of_Z 8) pid_kd_inf) in
  dt out = F32.zero /\
  F32.mul (dt out) (kd_ pid_kd_inf) = S754_nan /\
  is_zero (F32.mul (dt out) (kd_ pid_kd_inf)) = false /\
  pid_output out = S754_nan.
Proof. vm_compute. repeat split. Qed.

(** ** limitAcceleration *)

Lemma limitAcceleration_unfold
    (t m l : robot_velocities) (dt : spec_float) :
  limitAcceleration t m l dt =
  {| linear_velocity :=
       limit_axis (linear_velocity t) (linear_velocity m)
                  (linear_velocity l) dt;
     angular_velocity :=
       limit_axis (angular_velocity t) (angular_velocity m)
                  (angular_velocity l) dt |}.
Proof. reflexivity. Qed.

(** *** C7 *)

(** For finite arguments and [dt > 0] the proposed acceleration is a
    number, and the clipped one is within the limit. *)
Lemma clipped_acceleration_in_range (target measured limit dt : spec_float) :
  is_finite target = true -> is_finite measured = true ->
  is_finite dt = true -> F32.lt F32.zero dt = true ->
  F32.le F32.zero limit = true ->
  in_range (F32.opp limit) limit
           (clipped_acceleration target measured limit dt) = true.
Proof.
  intros Ht Hm Hdt Hpos Hl. unfold clipped_acceleration.
  apply clip_in_range.
  - now apply opp_fle_self.
  - apply SFdiv_not_nan; try assumption.
    + apply SFsub_not_nan; [assumption|]. now destruct measured.
    + now destruct dt.
Qed.

(** For a non-negative limit the clipped acceleration is within it exactly
    when the proposed one is a number. *)
Lemma clipped_acceleration_in_range_iff
    (target measured limit dt : spec_float) :
  F32.le F32.zero limit = true ->
  in_range (F32.opp limit) limit
           (clipped_acceleration target measured limit dt)
  = negb (is_nan (F32.div (F32.sub target measured) dt)).
Proof.
  intros Hl. unfold clipped_acceleration.
  apply clip_in_range_iff. now apply opp_fle_self.
Qed.

(** C7, as the code has it: for finite target and measured velocities, a
    finite [dt > 0] and non-negative limits, each axis of the result is the
    [float] sum [measured + a * dt], where [a], the proposed acceleration
    after clipping, lies within [[-limit, +limit]] of its own axis. *)
Theorem C7_limitAcceleration_clips_acceleration
    (t m l : robot_velocities) (dt : spec_float) :
  is_finite (linear_velocity t) = true ->
  is_finite (angular_velocity t) = true ->
  is_finite (linear_velocity m) = true ->
  is_finite (angular_velocity m) = true ->
  is_finite dt = true -> F32.lt F32.zero dt = true ->
  F32.le F32.zero (linear_velocity l) = true ->
  F32.le F32.zero (angular_velocity l) = true ->
  let a_lin := clipped_acceleration (linear_velocity t) (linear_velocity m)
                                    (linear_velocity l) dt in
  let a_ang := clipped_acceleration (angular_velocity t) (angular_velocity m)
                                    (angular_velocity l) dt in
  limitAcceleration t m l dt =
    {| linear_velocity := F32.add (linear_velocity m) (F32.mul a_lin dt);
       angular_velocity := F32.add (angular_velocity m) (F32.mul a_ang dt) |}
  /\ in_range (F32.opp (linear_velocity l)) (linear_velocity l) a_lin = true
  /\ in_range (F32.opp (angular_velocity l)) (angular_velocity l) a_ang = true.
Proof.
  intros Htl Hta Hml Hma Hdt Hpos Hll Hla a_lin a_ang.
  split; [reflexivity|].
  split; now apply clipped_acceleration_in_range.
Qed.

Lemma C7_witness :
  let a_lin := clipped_acceleration (F32.of_Z 5) (fdec 1 10) (fdec 1 2)
                                    scenario_dt in
  let a_ang := clipped_acceleration F32.zero F32.zero (fdec 2 10)
                                    scenario_dt in
  limitAcceleration scenario_target scenario_measured scenario_limits
                    scenario_dt =
    {| linear_velocity := F32.add (fdec 1 10) (F32.mul a_lin scenario_dt);
       angular_velocity := F32.add F32.zero (F32.mul a_ang scenario_dt) |}
  /\ in_range (F32.opp (fdec 1 2)) (fdec 1 2) a_lin = true
  /\ in_range (F32.opp (fdec 2 10)) (fdec 2 10) a_ang = true.
Proof.
  apply (C7_limitAcceleration_clips_acceleration
           scenario_target scenario_measured scenario_limits scenario_dt);
    reflexivity.
Defined.

(** C7 fails as stated, by rounding.  With measured 0.1, target 5, limit
    0.5 and [dt = 0.1] (the [float]s nearest to these), the acceleration is
    clipped to 0.5 and the result is the [float] nearest to [0.1 + 0.05],
    which is [10066330 * 2^-26] and lies above the exact sum.  So
    [output - measured] exceeds [limit * dt], in [float] arithmetic and as
    exact rationals, and the implied acceleration
    [(output - measured) / dt] exceeds the limit. *)
Lemma C7_counterexample :
  let out := linear_velocity
               (limitAcceleration scenario_target scenario_measured
                                  scenario_limits scenario_dt) in
  let m := linear_velocity scenario_measured in
  let lim := linear_velocity scenario_limits in
  out = S754_finite false 10066330 (-26)
  /\ F32.lt F32.zero scenario_dt = true
  /\ F32.le F32.zero lim = true
  /\ F32.le (F32.sub out m) (F32.mul lim scenario_dt) = false
  /\ F32.lt lim (F32.div (F32.sub out m) scenario_dt) = true
  /\ (exact_value lim * exact_value scenario_dt
      < exact_value out - exact_value m)%Q.
Proof. vm_compute. repeat split. Qed.

(** *** C3 *)
Section ZeroDt.

Variables target measured limit dt : spec_float.
Hypothesis dt_zero : is_zero dt = true.

(** With [dt = 0] the proposed acceleration is [0 / 0], a NaN, when target
    and measured are equal, and an infinity when they differ. *)
Lemma div_by_zero (d : spec_float) :
  F32.div d dt =
  if is_nan d || is_zero d then S754_nan
  else S754_infinity (match F32.div d dt with
                      | S754_infinity s => s | _ => false end).
Proof using dt_zero.
  float_cases dt. now destruct d.
Qed.

(** An infinite proposal is clipped to a finite value by a finite limit
    and stays infinite otherwise. *)
Lemma clip_infinity (s : bool) :
  is_finite (clip (S754_infinity s) (F32.opp limit) limit) = is_finite limit
  /\ is_nan (clip (S754_infinity s) (F32.opp limit) limit) = false.
Proof.
  destruct limit as [sl|sl| |sl ml el], s; try destruct sl; split; reflexivity.
Qed.

Lemma mul_by_zero (a : spec_float) :
  is_nan (F32.mul a dt) = negb (is_finite a)
  /\ is_zero (F32.mul a dt) = is_finite a.
Proof using dt_zero.
  float_cases dt. now destruct a.
Qed.

Lemma add_zero_r (z : spec_float) :
  is_zero z = true -> is_nan measured = false ->
  F32.eq (F32.add measured z) measured = true.
Proof.
  intros Hz Hm. float_cases z. unfold F32.eq, SFeqb.
  destruct measured as [sm|sm| |sm mm em]; try discriminate.
  - now destruct sm, s.
  - now destruct sm.
  - change (F32.add (S754_finite sm mm em) (S754_zero s))
      with (S754_finite sm mm em).
    now rewrite (SFcompare_refl (S754_finite sm mm em)).
Qed.

Lemma sub_nan_r :
  is_nan measured = true -> is_nan (F32.sub target measured) = true.
Proof. intros H. float_cases measured. now destruct target. Qed.

(** The axis is a NaN in the cases of [zero_dt_unusable], and equals
    measured in every other case. *)
Lemma limit_axis_zero_dt :
  is_nan (limit_axis target measured limit dt)
  = zero_dt_unusable target measured limit
  /\ F32.eq (limit_axis target measured limit dt) measured
     = negb (zero_dt_unusable target measured limit).
Proof using dt_zero.
  unfold limit_axis, clipped_acceleration, zero_dt_unusable.
  rewrite (div_by_zero (F32.sub target measured)).
  destruct (is_nan (F32.sub target measured)
            || is_zero (F32.sub target measured)) eqn:E.
  { rewrite (clip_nan _ _ S754_nan eq_refl).
    change (F32.mul S754_nan dt) with S754_nan.
    replace (F32.add measured S754_nan) with S754_nan
      by now destruct measured.
    split; reflexivity. }
  apply orb_false_elim in E. destruct E as [En Ez].
  set (s := match _ with S754_infinity s => s | _ => false end).
  set (a := clip (S754_infinity s) (F32.opp limit) limit).
  destruct (clip_infinity s) as [Hfin Hnn]. fold a in Hfin, Hnn.
  destruct (mul_by_zero a) as [Hn Hz].
  assert (Hm : is_nan measured = false).
  { destruct (is_nan measured) eqn:E; [|reflexivity].
    now rewrite (sub_nan_r E) in En. }
  destruct (is_finite limit) eqn:El; simpl.
  - rewrite Hfin in Hz.
    rewrite (add_zero_r _ Hz Hm). split; [|reflexivity].
    destruct (F32.mul a dt) as [sz| | |]; try discriminate.
    destruct measured as [sm|sm| |sm mm em]; try discriminate;
      try reflexivity.
    now destruct sm, sz.
  - rewrite Hfin in Hn. simpl in Hn.
    destruct (F32.mul a dt); try discriminate.
    now destruct measured.
Qed.

End ZeroDt.

(** C3, as the code has it: there is no guard on [dt = 0].  On each axis
    the result is a NaN when [target - measured] is zero or a NaN or the
    limit is not finite, and it equals measured in every other case. *)
Theorem C3_limitAcceleration_zero_dt
    (t m l : robot_velocities) (dt : spec_float) :
  is_zero dt = true ->
  let out := limitAcceleration t m l dt in
  is_nan (linear_velocity out) =
    zero_dt_unusable (linear_velocity t) (linear_velocity m)
                     (linear_velocity l)
  /\ F32.eq (linear_velocity out) (linear_velocity m) =
    negb (zero_dt_unusable (linear_velocity t) (linear_velocity m)
                           (linear_velocity l))
  /\ is_nan (angular_velocity out) =
    zero_dt_unusable (angular_velocity t) (angular_velocity m)
                     (angular_velocity l)
  /\ F32.eq (angular_velocity out) (angular_velocity m) =
    negb (zero_dt_unusable (angular_velocity t) (angular_velocity m)
                           (angular_velocity l)).
Proof.
  intros Hdt out. subst out. rewrite limitAcceleration_unfold.
  cbn [linear_velocity angular_velocity].
  destruct (limit_axis_zero_dt (linear_velocity t) (linear_velocity m)
              (linear_velocity l) dt Hdt) as [H1 H2].
  destruct (limit_axis_zero_dt (angular_velocity t) (angular_velocity m)
              (angular_velocity l) dt Hdt) as [H3 H4].
  repeat split; assumption.
Qed.

Lemma C3_witness :
  let out := limitAcceleration on_target_linear measured_5_3
                               scenario_limits F32.zero in
  is_nan (linear_velocity out) =
    zero_dt_unusable (F32.of_Z 5) (F32.of_Z 5) (fdec 1 2)
  /\ F32.eq (linear_velocity out) (F32.of_Z 5) =
    negb (zero_dt_unusable (F32.of_Z 5) (F32.of_Z 5) (fdec 1 2))
  /\ is_nan (angular_velocity out) =
    zero_dt_unusable F32.zero (F32.of_Z 3) (fdec 2 10)
  /\ F32.eq (angular_velocity out) (F32.of_Z 3) =
    negb (zero_dt_unusable F32.zero (F32.of_Z 3) (fdec 2 10)).
Proof.
  apply (C3_limitAcceleration_zero_dt on_target_linear measured_5_3
           scenario_limits F32.zero).
  reflexivity.
Defined.

(** C3 fails as stated: with [dt = 0], limits [{0.5, 0.2}], target
    [{5, 0}] and measured [{5, 3}], the linear acceleration is [0 / 0]; the
    returned linear velocity is a NaN, not the measured 5. *)
Lemma C3_counterexample :
  let out := limitAcceleration on_target_linear measured_5_3
                               scenario_limits F32.zero in
  linear_velocity out = S754_nan
  /\ F32.eq (linear_velocity out) (linear_velocity measured_5_3) = false
  /\ angular_velocity out = F32.of_Z 3.
Proof. vm_compute. repeat split. Qed.

(** ** computeVelocitiesFromWheelspeeds *)

(** *** C2 *)
Section Degenerate.

Variable g : robot_geometry.
Hypothesis base_zero : is_zero (wheel_base g) = true.
Hypothesis axle_zero : is_zero (intra_axle_distance g) = true.

Lemma degenerate_stance_radius : stance_radius g = S754_zero false.
Proof using base_zero axle_zero.
  unfold stance_radius.
  destruct (wheel_base g) as [sb| | |]; try discriminate.
  destruct (intra_axle_distance g) as [sa| | |]; try discriminate.
  now destruct sb, sa.
Qed.

Lemma degenerate_stance_circumference :
  stance_circumference g = S754_zero false.
Proof using base_zero axle_zero.
  unfold stance_circumference. now rewrite degenerate_stance_radius.
Qed.

End Degenerate.

(** Nothing divided by a zero is finite. *)
Lemma div_zero_not_finite (x z : spec_float) :
  is_zero z = true -> is_finite (F32.div x z) = false.
Proof. intros H. float_cases z. now destruct x. Qed.

(** C2, as the code has it: with [wheel_base] and [intra_axle_distance]
    both zero the stance circumference is 0 and the division by it is not
    guarded: for every wheel-speed input the returned angular velocity is
    a NaN or an infinity, and no error is reported. *)
Theorem C2_degenerate_geometry_divides_by_zero
    (RPM_TO_RADS_SEC : spec_float) (wheel_speeds : motor_data)
    (g : robot_geometry) :
  is_zero (wheel_base g) = true ->
  is_zero (intra_axle_distance g) = true ->
  stance_circumference g = S754_zero false
  /\ is_finite (angular_velocity
                  (computeVelocitiesFromWheelspeeds RPM_TO_RADS_SEC
                                                    wheel_speeds g)) = false.
Proof.
  intros Hb Ha. split.
  - now apply degenerate_stance_circumference.
  - unfold computeVelocitiesFromWheelspeeds. cbn [angular_velocity].
    apply div_zero_not_finite.
    now rewrite degenerate_stance_circumference.
Qed.

Lemma C2_witness :
  stance_circumference degenerate_geometry = S754_zero false
  /\ is_finite (angular_velocity
                  (computeVelocitiesFromWheelspeeds RPM_TO_RADS_SEC_nominal
                     (all_wheels (F32.of_Z 10)) degenerate_geometry)) = false.
Proof.
  apply (C2_degenerate_geometry_divides_by_zero RPM_TO_RADS_SEC_nominal
           (all_wheels (F32.of_Z 10)) degenerate_geometry);
    reflexivity.
Defined.

(** C2 fails as stated: with both stance dimensions zero and all four wheel
    speeds 10, the angular velocity is [0 / 0], a NaN; with the left wheels
    at 0 and the right wheels at 10 it is [+infinity]. *)
Lemma C2_counterexample :
  angular_velocity
    (computeVelocitiesFromWheelspeeds RPM_TO_RADS_SEC_nominal
       (all_wheels (F32.of_Z 10)) degenerate_geometry) = S754_nan
  /\ angular_velocity
       (computeVelocitiesFromWheelspeeds RPM_TO_RADS_SEC_nominal
          {| fl := F32.zero; fr := F32.of_Z 10;
             rl := F32.zero; rr := F32.of_Z 10 |}
          degenerate_geometry) = S754_infinity false.
Proof. vm_compute. split; reflexivity. Qed.

(** *** C8 *)

(** **** The stance of a positive geometry *)

Lemma half_at_least : at_least_pow2 (-1) F64.half.
Proof. vm_compute. discriminate. Qed.

Lemma two_pi_at_least :
  at_least_pow2 2 (F64.mul (F64.of_Z 2) F64.M_PI).
Proof. vm_compute. discriminate. Qed.

(** Half of a [float] of at least [2^j], squared, in [double]. *)
Lemma half_squared_at_least (x : spec_float) (j : Z) :
  at_least_pow2 j x -> -500 <= j ->
  at_least_pow2 (2 * (j - 1))
    (F64.pow2 (F64.mul F64.half (F64.of_float x))).
Proof.
  intros Hx Hj.
  assert (He : emin F64.prec F64.emax = -1074) by reflexivity.
  assert (H1 : at_least_pow2 j (F64.of_float x)).
  { apply (renormalize_at_least F64.prec F64.emax eq_refl x j Hx). lia. }
  assert (H2 : at_least_pow2 (-1 + j)
                 (F64.mul F64.half (F64.of_float x))).
  { apply (SFmul_at_least F64.prec F64.emax eq_refl); auto using half_at_least.
    lia. }
  replace (2 * (j - 1)) with ((-1 + j) + (-1 + j)) by lia.
  apply (SFmul_at_least F64.prec F64.emax eq_refl); auto. lia.
Qed.

Section StanceOfPositiveGeometry.
Variable g : robot_geometry.
Hypothesis base_valid : F32.valid (wheel_base g) = true.
Hypothesis axle_valid : F32.valid (intra_axle_distance g) = true.
Hypothesis base_pos : F32.lt F32.zero (wheel_base g) = true.
Hypothesis axle_pos : F32.lt F32.zero (intra_axle_distance g) = true.

Lemma stance_radius_at_least : at_least_pow2 (-149) (stance_radius g).
Proof using base_valid axle_valid base_pos axle_pos.
  assert (He64 : emin F64.prec F64.emax = -1074) by reflexivity.
  assert (He32 : emin F32.prec F32.emax = -149) by reflexivity.
  unfold stance_radius.
  destruct (positive_float_cases _ base_valid base_pos) as [Hb|Hb];
    destruct (positive_float_cases _ axle_valid axle_pos) as [Ha|Ha].
  1,2: assert (Ha' : at_least_pow2 (-149) (intra_axle_distance g))
         by (first [ now apply (at_least_weaken (-148))
                   | rewrite Ha; vm_compute; discriminate ]).
  1,2: apply (renormalize_at_least F32.prec F32.emax eq_refl); [|lia];
       change (-149) with (-298 / 2);
       apply (SFsqrt_at_least F64.prec F64.emax eq_refl); [|now rewrite He64];
       apply (SFadd_at_least F64.prec F64.emax eq_refl _ _ (-298) (-300));
       [ apply (half_squared_at_least _ (-148) Hb); lia
       | apply (half_squared_at_least _ (-149) Ha'); lia
       | lia ].
  - assert (Hb' : at_least_pow2 (-149) (wheel_base g))
      by (rewrite Hb; vm_compute; discriminate).
    apply (renormalize_at_least F32.prec F32.emax eq_refl); [|lia].
    change (-149) with (-298 / 2).
    apply (SFsqrt_at_least F64.prec F64.emax eq_refl); [|now rewrite He64].
    apply (SFadd_at_least_r F64.prec F64.emax eq_refl _ _ (-300) (-298));
      [ apply (half_squared_at_least _ (-149) Hb'); lia
      | apply (half_squared_at_least _ (-148) Ha); lia
      | lia ].
  - rewrite Hb, Ha. vm_compute. discriminate.
Qed.

(** The stance circumference of a geometry with strictly positive
    [wheel_base] and [intra_axle_distance] is strictly positive. *)
Lemma stance_circumference_positive :
  F32.lt F32.zero (stance_circumference g) = true.
Proof using base_valid axle_valid base_pos axle_pos.
  apply (at_least_positive (-147)). unfold stance_circumference.
  apply (renormalize_at_least F32.prec F32.emax eq_refl);
    [|unfold emin, F32.prec, F32.emax; lia].
  change (-147) with (2 + -149).
  apply (SFmul_at_least F64.prec F64.emax eq_refl);
    [exact two_pi_at_least| |unfold emin, F64.prec, F64.emax; lia].
  apply (renormalize_at_least F64.prec F64.emax eq_refl
           (stance_radius g) (-149) stance_radius_at_least).
  unfold emin, F64.prec, F64.emax; lia.
Qed.
End StanceOfPositiveGeometry.

(** **** Equal wheel speeds *)

Lemma std_min_same (x : spec_float) : std_min x x = x.
Proof. unfold std_min. now destruct (F32.lt x x). Qed.

(** A finite value minus itself is [+0]. *)
Lemma sub_same (x : spec_float) :
  is_finite x = true -> F32.sub x x = S754_zero false.
Proof.
  destruct x as [s| | |s m e]; try discriminate; intros _.
  - now destruct s.
  - unfold F32.sub, SFsub. now rewrite Z.sub_diag.
Qed.

(** Zero divided by a positive value is [+0]. *)
Lemma zero_div_pos (y : spec_float) :
  F32.lt F32.zero y = true -> F32.div (S754_zero false) y = F32.zero.
Proof.
  destruct y as [s|s| |s m e]; try discriminate; now destruct s.
Qed.

(** C8, as the code has it: for every geometry whose [wheel_base] and
    [intra_axle_distance] are strictly positive [float]s, with all four
    wheel speeds equal to [s], when the common travel rate
    [s * RPM_TO_RADS_SEC * wheel_radius] (computed in [double], stored as
    [float]) is finite, the angular velocity is 0 and the linear velocity
    is that travel rate. *)
Theorem C8_equal_wheel_speeds
    (RPM_TO_RADS_SEC s : spec_float) (g : robot_geometry) :
  F32.valid (wheel_base g) = true ->
  F32.valid (intra_axle_distance g) = true ->
  F32.lt F32.zero (wheel_base g) = true ->
  F32.lt F32.zero (intra_axle_distance g) = true ->
  is_finite (travel_rate RPM_TO_RADS_SEC s g) = true ->
  let out := computeVelocitiesFromWheelspeeds RPM_TO_RADS_SEC
                                              (all_wheels s) g in
  angular_velocity out = F32.zero
  /\ linear_velocity out =
     F32.round (F64.mul (F64.mul (F64.of_float s) RPM_TO_RADS_SEC)
                        (F64.of_float (wheel_radius g))).
Proof.
  intros Hvb Hva Hb Ha Hrate out. subst out.
  unfold computeVelocitiesFromWheelspeeds, all_wheels.
  cbn [fl fr rl rr angular_velocity linear_velocity].
  rewrite !std_min_same. split; [|reflexivity].
  rewrite (sub_same _ Hrate).
  apply zero_div_pos. now apply stance_circumference_positive.
Qed.

(** The scenario of the specification: geometry [{0.5, 0.4, 0.1}] and all
    four wheel speeds 10. *)
Lemma C8_witness :
  let out := computeVelocitiesFromWheelspeeds RPM_TO_RADS_SEC_nominal
               (all_wheels (F32.of_Z 10)) scenario_geometry in
  angular_velocity out = F32.zero
  /\ linear_velocity out =
     F32.round (F64.mul (F64.mul (F64.of_float (F32.of_Z 10))
                                 RPM_TO_RADS_SEC_nominal)
                        (F64.of_float (wheel_radius scenario_geometry))).
Proof.
  apply (C8_equal_wheel_speeds RPM_TO_RADS_SEC_nominal (F32.of_Z 10)
           scenario_geometry);
    reflexivity.
Defined.

(** C8 fails as stated when the travel rate is not finite.  With the
    scenario's geometry and all four wheel speeds [+infinity] the travel
    rate is [+inf] and the angular velocity [(inf - inf) / cs] is a NaN;
    the same happens by overflow with finite values, all four wheel speeds
    [FLT_MAX] and a wheel radius of 100. *)
Lemma C8_counterexample :
  angular_velocity
    (computeVelocitiesFromWheelspeeds RPM_TO_RADS_SEC_nominal
       (all_wheels (S754_infinity false)) scenario_geometry) = S754_nan
  /\ F32.valid (wheel_base scenario_geometry) = true
  /\ F32.valid (intra_axle_distance scenario_geometry) = true
  /\ F32.lt F32.zero (wheel_base scenario_geometry) = true
  /\ F32.lt F32.zero (intra_axle_distance scenario_geometry) = true
  /\ F32.lt F32.zero (wheel_radius scenario_geometry) = true
  /\ angular_velocity
       (computeVelocitiesFromWheelspeeds RPM_TO_RADS_SEC_nominal
          (all_wheels F32.max_value)
          (geometry (fdec 1 2) (fdec 4 10) (F32.of_Z 100))) = S754_nan.
Proof. vm_compute. repeat split. Qed.

(** ** Configuration *)

(** *** C9 *)

(** C9, as the code has it: the constructor and the setters store what they
    are given, whatever it is; they return nothing and report no error.
    The getters read the stored values back, and the next [runControl]
    clips against the stored limits as they are. *)
Theorem C9_configuration_is_stored_unchecked :
  (forall (g : robot_geometry) (c : SkidRobotMotionController),
      getRobotGeometry (setRobotGeometry g c) = g)
  /\ (forall (mode : robot_motion_mode_t) (g : robot_geometry)
             (k : pid_gains) (duty : spec_float),
         getRobotGeometry (SkidRobotMotionController_new mode g k duty) = g)
  /\ (forall (l : pid_output_limits) (c : PidController),
         getOutputLimits (setOutputLimits l c) = l)
  /\ (forall (l : pid_output_limits) (c : PidController) (time_now : Z)
             (target measured : spec_float),
         pid_output (fst (runControl time_now target measured
                                     (setOutputLimits l c))) =
         clip (pid_sum c time_now target measured) (negmax l) (posmax l)).
Proof.
  repeat split.
  now destruct l.
Qed.

(** C9 fails as stated: a controller constructed with, or set to, an
    all-zero geometry holds it; [setOutputLimits] with [posmax = -1] and
    [negmax = 1] is accepted, and the next [runControl], on target,
    returns 1: the limits were used. *)
Lemma C9_counterexample :
  getRobotGeometry
    (SkidRobotMotionController_new OPEN_LOOP zero_geometry
       (gains (F32.of_Z 1) F32.zero F32.zero) (F32.of_Z 100)) = zero_geometry
  /\ getRobotGeometry
       (setRobotGeometry zero_geometry
          (SkidRobotMotionController_new OPEN_LOOP scenario_geometry
             (gains (F32.of_Z 1) F32.zero F32.zero) (F32.of_Z 100)))
     = zero_geometry
  /\ F32.lt (posmax inverted_limits) (negmax inverted_limits) = true
  /\ getOutputLimits (setOutputLimits inverted_limits pid_pi) = inverted_limits
  /\ pid_output (fst (runControl 10 F32.zero F32.zero
                                 (setOutputLimits inverted_limits pid_pi)))
     = F32.of_Z 1.
Proof. vm_compute. repeat split. Qed.

(** ** runMotionControl *)

(** *** C1 *)

(** C1: whatever the targets, duty cycles, wheel speeds and controller, the
    body of [runMotionControl] reaches its end without a [return]: no duty
    set is produced, and [max_motor_duty_] is never read. *)
Theorem C1_runMotionControl_returns_no_duty
    (RPM_TO_RADS_SEC : spec_float) (velocity_targets : robot_velocities)
    (current_duty_cycles current_motor_speeds : motor_data)
    (c : SkidRobotMotionController) :
  runMotionControl RPM_TO_RADS_SEC velocity_targets current_duty_cycles
                   current_motor_speeds c = FlowsOffEnd
  /\ forall duty : spec_float,
       runMotionControl RPM_TO_RADS_SEC velocity_targets current_duty_cycles
                        current_motor_speeds (setMotorMaxDuty duty c)
       = runMotionControl RPM_TO_RADS_SEC velocity_targets
                          current_duty_cycles current_motor_speeds c.
Proof. split; reflexivity. Qed.

(** * Part III: further properties of the code *)

(** ** More on the order of IEEE values *)
Section OrderTransitive.

Lemma SFcompare_lt_trans (x y z : spec_float) :
  SFcompare x y = Some Lt -> SFcompare y z = Some Lt ->
  SFcompare x z = Some Lt.
Proof.
  destruct x as [sx|sx| |sx mx ex], y as [sy|sy| |sy my ey],
           z as [sz|sz| |sz mz ez]; simpl;
    try destruct sx; try destruct sy; try destruct sz;
    try discriminate; try reflexivity;
    change (Pos.compare_cont Eq) with Pos.compare;
    destruct (Z.compare_spec ex ey), (Z.compare_spec ey ez),
             (Z.compare_spec ex ez);
    try discriminate; try reflexivity; try lia; subst;
    destruct (Pos.compare_spec mx my), (Pos.compare_spec my mz),
             (Pos.compare_spec mx mz);
    simpl; try discriminate; try reflexivity; try lia.
Qed.

Lemma SFcompare_eq_lt_trans (x y z : spec_float) :
  SFcompare x y = Some Eq -> SFcompare y z = Some Lt ->
  SFcompare x z = Some Lt.
Proof.
  destruct x as [sx|sx| |sx mx ex], y as [sy|sy| |sy my ey],
           z as [sz|sz| |sz mz ez]; simpl;
    try destruct sx; try destruct sy; try destruct sz;
    try discriminate; try reflexivity;
    change (Pos.compare_cont Eq) with Pos.compare;
    destruct (Z.compare_spec ex ey), (Z.compare_spec ey ez),
             (Z.compare_spec ex ez);
    try discriminate; try reflexivity; try lia; subst;
    destruct (Pos.compare_spec mx my), (Pos.compare_spec my mz),
             (Pos.compare_spec mx mz);
    simpl; try discriminate; try reflexivity; try lia.
Qed.

(** [x <= y < z] gives [x < z]. *)
Lemma fle_flt_trans (x y z : spec_float) :
  F32.le x y = true -> F32.lt y z = true -> F32.lt x z = true.
Proof.
  unfold F32.le, F32.lt, SFleb, SFltb. intros Hxy Hyz.
  destruct (SFcompare y z) as [[ | | ]|] eqn:E2; try discriminate.
  destruct (SFcompare x y) as [[ | | ]|] eqn:E1; try discriminate.
  - now rewrite (SFcompare_eq_lt_trans x y z E1 E2).
  - now rewrite (SFcompare_lt_trans x y z E1 E2).
Qed.

Lemma flt_not_nan (x y : spec_float) :
  F32.lt x y = true -> is_nan x = false /\ is_nan y = false.
Proof.
  unfold F32.lt, SFltb. destruct x, y; simpl; try discriminate; auto.
Qed.

Lemma flt_fle (x y : spec_float) : F32.lt x y = true -> F32.le x y = true.
Proof.
  unfold F32.lt, F32.le, SFltb, SFleb.
  destruct (SFcompare x y) as [[ | | ]|]; congruence.
Qed.

Lemma feq_refl (x : spec_float) : is_nan x = false -> F32.eq x x = true.
Proof.
  intros H. unfold F32.eq, SFeqb. now rewrite (SFcompare_refl x H).
Qed.

Lemma opp_fle_zero (q : spec_float) :
  F32.le F32.zero q = true -> F32.le (F32.opp q) F32.zero = true.
Proof.
  destruct q as [s|s| |s m e]; try discriminate; now destruct s.
Qed.

(** A negative limit [l] is below [-l]: the two bounds are crossed. *)
Lemma negative_limit_inverted (l : spec_float) :
  F32.lt l F32.zero = true -> F32.lt l (F32.opp l) = true.
Proof.
  destruct l as [s|s| |s m e]; simpl; try discriminate;
    destruct s; try discriminate; reflexivity.
Qed.

End OrderTransitive.

(** ** Clipping between crossed bounds

    With [hi < lo] every number ends at [lo]: above [hi] it is set to [hi]
    and then, being below [lo], to [lo]; otherwise it is at most [hi],
    hence below [lo]. *)
Lemma clip_inverted (lo hi a : spec_float) :
  F32.lt hi lo = true -> is_nan a = false -> clip a lo hi = lo.
Proof.
  intros H Ha. destruct (flt_not_nan _ _ H) as [Hhi Hlo].
  unfold clip, F32.gt. cbv zeta.
  destruct (F32.lt hi a) eqn:E.
  - now rewrite H.
  - now rewrite (fle_flt_trans a hi lo (not_flt_fle a hi Ha Hhi E) H).
Qed.

(** ** NaN operands *)

Lemma is_nan_eq (x : spec_float) : is_nan x = true -> x = S754_nan.
Proof. now destruct x. Qed.

Lemma add_nan_l (y : spec_float) : F32.add S754_nan y = S754_nan.
Proof. reflexivity. Qed.

Lemma add_nan_r (x : spec_float) : F32.add x S754_nan = S754_nan.
Proof. now destruct x. Qed.

Lemma mul_nan_l (y : spec_float) : F32.mul S754_nan y = S754_nan.
Proof. reflexivity. Qed.

Lemma sub_nan_l (y : spec_float) : F32.sub S754_nan y = S754_nan.
Proof. reflexivity. Qed.

Lemma sub_nan_right (x : spec_float) : F32.sub x S754_nan = S754_nan.
Proof. now destruct x. Qed.

Lemma div_nan_l (y : spec_float) : F32.div S754_nan y = S754_nan.
Proof. reflexivity. Qed.

(** ** The results of a rounding are in the range of the format *)
Section Fits.
Variables prec emax : Z.
Hypothesis prec_pos : 0 < prec.

Lemma shr_fexp_digits (m e : Z) (l : location) :
  0 <= m -> Zdigits2 (shr_m (fst (shr_fexp prec emax m e l))) <= prec.
Proof using prec_pos.
  intros Hm. unfold shr_fexp, shr.
  assert (Hrec : shr_m (shr_record_of_loc m l) = m)
    by (destruct l as [|[ | | ]]; reflexivity).
  destruct (fexp prec emax (Zdigits2 m + e) - e) as [|n|n] eqn:En;
    cbn [fst snd]; rewrite ?Hrec; try (unfold fexp in En; lia).
  rewrite iter_shr_1_shiftr by (rewrite Hrec; exact Hm). rewrite Hrec.
  destruct (Z.eq_dec m 0) as [->|Hm0].
  - rewrite Z.shiftr_0_l. simpl. lia.
  - assert (Hpos : 0 < m) by lia.
    pose proof (proj2 (Z.shiftr_nonneg m (Z.pos n)) Hm) as Hs.
    destruct (Z.eq_dec (Z.shiftr m (Z.pos n)) 0) as [->|Hs0].
    + simpl. lia.
    + rewrite (Zdigits2_log2 (Z.shiftr m (Z.pos n))) by lia.
      rewrite Z.log2_shiftr by exact Hpos.
      rewrite (Zdigits2_log2 m Hpos) in En. unfold fexp in En. lia.
Qed.

Lemma binary_round_aux_fits (sx : bool) (mx ex : Z) (lx : location) :
  0 <= mx -> fits prec emax (binary_round_aux prec emax sx mx ex lx).
Proof using prec_pos.
  intros H. unfold binary_round_aux.
  pose proof (shr_fexp_nonneg prec emax mx ex lx H) as H1.
  destruct (shr_fexp prec emax mx ex lx) as [mrs' e']. simpl in H1.
  pose proof (shr_fexp_digits _ e' loc_Exact
                (round_nearest_even_nonneg _ (loc_of_shr_record mrs') H1)) as H2.
  destruct (shr_fexp prec emax _ e' loc_Exact) as [mrs'' e'']. simpl in H2.
  destruct (shr_m mrs'') as [|m|m]; try exact I.
  destruct (e'' <=? emax - prec) eqn:E; [|exact I].
  split; [exact H2|lia].
Qed.

Lemma binary_normalize_fits (m e : Z) (szero : bool) :
  fits prec emax (binary_normalize prec emax m e szero).
Proof using prec_pos.
  destruct m as [|p|p]; simpl; try exact I; unfold binary_round;
    destruct (shl_align p e _) as [mz ez];
    apply binary_round_aux_fits; lia.
Qed.

Lemma SFmul_fits (x y : spec_float) : fits prec emax (SFmul prec emax x y).
Proof using prec_pos.
  destruct x as [sx|sx| |sx mx ex], y as [sy|sy| |sy my ey];
    simpl; try exact I.
  apply binary_round_aux_fits. lia.
Qed.

(** A sum returns an operand as it is when the other one is zero. *)
Lemma SFadd_fits (x y : spec_float) :
  fits prec emax x -> fits prec emax y -> fits prec emax (SFadd prec emax x y).
Proof using prec_pos.
  destruct x as [sx|sx| |sx mx ex], y as [sy|sy| |sy my ey];
    simpl; intros Hx Hy; try exact I; try assumption;
    try (destruct sx, sy; exact I).
  apply binary_normalize_fits.
Qed.

Lemma SFsub_fits (x y : spec_float) :
  fits prec emax x -> fits prec emax y -> fits prec emax (SFsub prec emax x y).
Proof using prec_pos.
  destruct x as [sx|sx| |sx mx ex], y as [sy|sy| |sy my ey];
    simpl; intros Hx Hy; try exact I; try assumption;
    try (destruct sx, sy; exact I).
  apply binary_normalize_fits.
Qed.

Lemma valid_fits (x : spec_float) :
  valid_binary prec emax x = true -> fits prec emax x.
Proof.
  destruct x as [s|s| |s m e]; simpl; try (intros; exact I).
  unfold bounded, canonical_mantissa, fexp. intros H.
  apply andb_true_iff in H. destruct H as [H1 H2].
  apply Z.eqb_eq in H1. apply Z.leb_le in H2.
  unfold Zdigits2. unfold emin in H1. lia.
Qed.

End Fits.

(** A finite value with a mantissa and an exponent not above those of
    [M * 2^E] lies between [- M * 2^E] and [M * 2^E]. *)
Lemma fle_finite_bound (s : bool) (m M : positive) (e E : Z) :
  Z.pos m <= Z.pos M -> e <= E ->
  F32.le (S754_finite s m e) (S754_finite false M E) = true
  /\ F32.le (S754_finite true M E) (S754_finite s m e) = true.
Proof.
  intros Hm He. unfold F32.le, SFleb. cbn [SFcompare].
  change (Pos.compare_cont Eq) with Pos.compare.
  rewrite (Z.compare_antisym e E), (Pos.compare_antisym m M).
  destruct s; split; try reflexivity;
    destruct (Z.compare_spec e E); simpl; try reflexivity; try lia;
    destruct (Pos.compare_spec m M); simpl; try reflexivity; lia.
Qed.

Lemma fits_fle_max (x : spec_float) :
  fits F32.prec F32.emax x -> is_finite x = true ->
  F32.le x F32.max_value = true /\ F32.le F32.lowest x = true.
Proof.
  destruct x as [s| | |s m e]; try discriminate; intros H _.
  - split; reflexivity.
  - destruct H as [Hd He]. rewrite Zdigits2_log2 in Hd by lia.
    assert (Hm : Z.pos m < 2 ^ 24).
    { apply Z.log2_lt_pow2; unfold F32.prec in Hd; lia. }
    change (2 ^ 24) with 16777216 in Hm.
    unfold F32.prec, F32.emax in He.
    apply (fle_finite_bound s m 16777215 e 104); lia.
Qed.

(** Against [lowest()] and [max()], the two tests change the infinities
    only. *)
Lemma clip_default (x : spec_float) :
  fits F32.prec F32.emax x ->
  clip x F32.lowest F32.max_value = saturate x.
Proof.
  intros H. destruct x as [s|s| |s m e] eqn:Ex.
  - reflexivity.
  - now destruct s.
  - reflexivity.
  - rewrite <- Ex in *.
    assert (Hf : is_finite x = true) by now rewrite Ex.
    destruct (fits_fle_max x H Hf) as [H1 H2].
    unfold clip, F32.gt. cbv zeta.
    rewrite (fle_not_flt _ _ H1), (fle_not_flt _ _ H2).
    now rewrite Ex.
Qed.

Lemma saturate_fits (x : spec_float) :
  fits F32.prec F32.emax x -> fits F32.prec F32.emax (saturate x).
Proof.
  destruct x as [s|s| |s m e]; simpl; try (intros; exact I); try easy.
  intros _. destruct s; simpl; unfold F32.prec, F32.emax; lia.
Qed.

(** ** The results of a rounding are values of the format

    [binary_round] aligns its argument to the exponent [fexp] asks for;
    from there both shifts of [binary_round_aux] leave a canonical pair. *)
Section Canonical.
Variables prec emax : Z.
Hypothesis prec_pos : 0 < prec.

Lemma Zdigits2_nonneg (m : Z) : 0 <= m -> 0 <= Zdigits2 m.
Proof. destruct m; simpl; lia. Qed.

Lemma Zdigits2_le (m m' : Z) : 0 <= m <= m' -> Zdigits2 m <= Zdigits2 m'.
Proof.
  intros [H0 H]. destruct (Z.eq_dec m 0) as [->|Hm].
  - now apply Zdigits2_nonneg.
  - rewrite !Zdigits2_log2 by lia.
    pose proof (Z.log2_le_mono m m' H). lia.
Qed.

Lemma shr_fexp_canonical (m e : Z) (l : location) :
  0 < m -> e <= fexp prec emax (Zdigits2 m + e) ->
  fexp prec emax (Zdigits2 (shr_m (fst (shr_fexp prec emax m e l)))
                  + snd (shr_fexp prec emax m e l))
  = snd (shr_fexp prec emax m e l).
Proof using prec_pos.
  intros Hm He. unfold shr_fexp, shr.
  assert (Hrec : shr_m (shr_record_of_loc m l) = m)
    by (destruct l as [|[ | | ]]; reflexivity).
  destruct (fexp prec emax (Zdigits2 m + e) - e) as [|n|n] eqn:En;
    cbn [fst snd]; rewrite ?Hrec; try lia.
  rewrite iter_shr_1_shiftr by (rewrite Hrec; lia). rewrite Hrec.
  rewrite (Zdigits2_log2 m Hm) in En.
  pose proof (proj2 (Z.shiftr_nonneg m (Z.pos n)) ltac:(lia)) as Hs.
  destruct (Z.eq_dec (Z.shiftr m (Z.pos n)) 0) as [E|E].
  - rewrite E. apply Z.shiftr_eq_0_iff in E.
    change (Zdigits2 0) with 0. unfold fexp in *. lia.
  - rewrite (Zdigits2_log2 (Z.shiftr m (Z.pos n))) by lia.
    rewrite Z.log2_shiftr by exact Hm.
    assert (Hn : Z.pos n <= Z.log2 m).
    { destruct (Z.le_gt_cases (Z.pos n) (Z.log2 m)) as [H|H]; [exact H|].
      exfalso. apply E. apply Z.shiftr_eq_0_iff. right. lia. }
    unfold fexp in *. lia.
Qed.

Lemma binary_round_aux_valid (s : bool) (m e : Z) (l : location) :
  0 < m -> e <= fexp prec emax (Zdigits2 m + e) ->
  valid_binary prec emax (binary_round_aux prec emax s m e l) = true.
Proof using prec_pos.
  intros Hm He. unfold binary_round_aux.
  pose proof (shr_fexp_canonical m e l Hm He) as H1.
  pose proof (shr_fexp_nonneg prec emax m e l ltac:(lia)) as H1'.
  destruct (shr_fexp prec emax m e l) as [mrs1 e1]. cbn [fst snd] in H1, H1'.
  pose proof (round_nearest_even_ge (shr_m mrs1) (loc_of_shr_record mrs1)) as Hr.
  set (m2 := round_nearest_even (shr_m mrs1) (loc_of_shr_record mrs1)) in *.
  destruct (Z.eq_dec m2 0) as [E|E].
  - rewrite E. unfold shr_fexp, shr.
    destruct (fexp prec emax (Zdigits2 0 + e1) - e1) as [|n|n]; cbn [fst snd];
      try reflexivity.
    rewrite iter_shr_1_shiftr by (simpl; lia). simpl shr_m.
    now rewrite Z.shiftr_0_l.
  - assert (Hm2 : 0 < m2) by lia.
    assert (He1 : e1 <= fexp prec emax (Zdigits2 m2 + e1)).
    { pose proof (Zdigits2_le (shr_m mrs1) m2 ltac:(lia)).
      unfold fexp in *. lia. }
    pose proof (shr_fexp_canonical m2 e1 loc_Exact Hm2 He1) as H2.
    destruct (shr_fexp prec emax m2 e1 loc_Exact) as [mrs2 e2].
    cbn [fst snd] in H2.
    destruct (shr_m mrs2) as [|m3|m3]; try reflexivity.
    destruct (e2 <=? emax - prec) eqn:E2; [|reflexivity].
    cbn [valid_binary]. unfold bounded, canonical_mantissa.
    change (Z.pos (digits2_pos m3)) with (Zdigits2 (Z.pos m3)).
    rewrite H2, Z.eqb_refl. exact E2.
Qed.

Lemma shl_align_exponent (m : positive) (e e' : Z) :
  snd (shl_align m e e') <= e'.
Proof.
  unfold shl_align. destruct (e' - e) as [|d|d] eqn:E; cbn [snd]; lia.
Qed.

Lemma binary_round_valid (s : bool) (m : positive) (e : Z) :
  valid_binary prec emax (binary_round prec emax s m e) = true.
Proof using prec_pos.
  unfold binary_round.
  pose proof (shl_align_magnitude m e
                (fexp prec emax (Zpos (digits2_pos m) + e))) as H.
  pose proof (shl_align_exponent m e
                (fexp prec emax (Zpos (digits2_pos m) + e))) as H'.
  destruct (shl_align m e _) as [mz ez]. cbn [fst snd] in H, H'.
  apply binary_round_aux_valid; [lia|].
  rewrite Zdigits2_log2 by lia.
  change (Z.pos (digits2_pos m)) with (Zdigits2 (Z.pos m)) in H'.
  rewrite Zdigits2_log2 in H' by lia.
  replace (Z.log2 (Z.pos mz) + 1 + ez) with (Z.log2 (Z.pos m) + 1 + e) by lia.
  exact H'.
Qed.

Lemma binary_normalize_valid (z e : Z) (szero : bool) :
  valid_binary prec emax (binary_normalize prec emax z e szero) = true.
Proof using prec_pos.
  destruct z as [|p|p]; simpl; try reflexivity; apply binary_round_valid.
Qed.

End Canonical.

(** Whatever is stored in a [float] variable is a value of the format. *)
Lemma round_valid (x : spec_float) : F32.valid (F32.round x) = true.
Proof.
  destruct x as [s|s| |s m e]; try reflexivity.
  apply (binary_normalize_valid F32.prec F32.emax eq_refl).
Qed.

(** ** Rounding is symmetric in the sign *)
Section SignSymmetry.
Variables prec emax : Z.

Lemma binary_round_aux_opp (s : bool) (m e : Z) (l : location) :
  binary_round_aux prec emax (negb s) m e l
  = SFopp (binary_round_aux prec emax s m e l).
Proof.
  unfold binary_round_aux.
  destruct (shr_fexp prec emax m e l) as [mrs' e'].
  destruct (shr_fexp prec emax _ e' loc_Exact) as [mrs'' e''].
  destruct (shr_m mrs'') as [|p|p]; try reflexivity.
  now destruct (e'' <=? emax - prec).
Qed.

Lemma binary_normalize_opp (z e : Z) :
  z <> 0 ->
  binary_normalize prec emax (- z) e false
  = SFopp (binary_normalize prec emax z e false).
Proof.
  destruct z as [|p|p]; intros H; try contradiction; simpl;
    unfold binary_round; destruct (shl_align p e _) as [mz ez].
  - apply (binary_round_aux_opp false).
  - rewrite (binary_round_aux_opp false).
    now destruct (binary_round_aux prec emax false (Z.pos mz) ez loc_Exact)
      as [[ | ]|[ | ]| |[ | ] ? ?].
Qed.

(** [y - x] is [-(x - y)], unless both differences are zero. *)
Lemma SFsub_swap (x y : spec_float) :
  SFsub prec emax y x = SFopp (SFsub prec emax x y)
  \/ (is_zero (SFsub prec emax x y) = true
      /\ is_zero (SFsub prec emax y x) = true).
Proof.
  destruct x as [sx|sx| |sx mx ex], y as [sy|sy| |sy my ey];
    try (destruct sx, sy; simpl; auto; fail);
    try (destruct sx; simpl; auto; fail);
    try (destruct sy; simpl; auto; fail);
    try (simpl; auto; fail).
  unfold SFsub. rewrite (Z.min_comm ey ex). cbv zeta.
  set (a := cond_Zopp sx _). set (b := cond_Zopp sy _).
  destruct (Z.eq_dec (a - b) 0) as [E|E].
  - right. replace (b - a) with 0 by lia. rewrite E. now split.
  - left. replace (b - a) with (- (a - b)) by lia.
    now apply binary_normalize_opp.
Qed.

Lemma SFdiv_opp (x y : spec_float) :
  SFdiv prec emax (SFopp x) y = SFopp (SFdiv prec emax x y).
Proof.
  destruct x as [sx|sx| |sx mx ex], y as [sy|sy| |sy my ey];
    try reflexivity; try (now destruct sx, sy).
  simpl. destruct (SFdiv_core_binary _ _ _ _ _ _) as [[mz ez] lz].
  replace (xorb (negb sx) sy) with (negb (xorb sx sy)) by now destruct sx, sy.
  apply binary_round_aux_opp.
Qed.

End SignSymmetry.

(** ** The order of the values of the format

    On canonical pairs the comparison of [SFcompare], exponent first, is
    the comparison of the values. *)
Section OrderOfValues.
Variables prec emax : Z.
Hypothesis prec_pos : 0 < prec.

Lemma shl_align_value (m : positive) (e e' : Z) :
  e' <= e -> Zpos (fst (shl_align m e e')) = Zpos m * 2 ^ (e - e').
Proof.
  intros H. unfold shl_align.
  destruct (e' - e) as [|d|d] eqn:E; cbn [fst]; try lia.
  - replace (e - e') with 0 by lia. lia.
  - rewrite (Pos.iter_swap_gen _ _ Zpos xO (Z.mul 2)) by reflexivity.
    change (Pos.iter (Z.mul 2) (Zpos m) d) with (Z.shiftl (Zpos m) (Zpos d)).
    rewrite Z.shiftl_mul_pow2 by lia. f_equal. f_equal. lia.
Qed.

Lemma canonical_lt (m1 m2 : positive) (e1 e2 : Z) :
  canonical_mantissa prec emax m1 e1 = true ->
  canonical_mantissa prec emax m2 e2 = true ->
  e1 < e2 -> Zpos m1 < Zpos m2 * 2 ^ (e2 - e1).
Proof using prec_pos.
  unfold canonical_mantissa. intros H1 H2 He.
  apply Z.eqb_eq in H1, H2.
  change (Z.pos (digits2_pos m1)) with (Zdigits2 (Z.pos m1)) in H1.
  change (Z.pos (digits2_pos m2)) with (Zdigits2 (Z.pos m2)) in H2.
  rewrite Zdigits2_log2 in H1, H2 by lia. unfold fexp in H1, H2.
  assert (Hm1 : Z.pos m1 < 2 ^ prec) by (apply Z.log2_lt_pow2; lia).
  assert (Hm2 : 2 ^ (prec - 1) <= Z.pos m2).
  { replace (prec - 1) with (Z.log2 (Z.pos m2)) by lia.
    apply Z.log2_spec. lia. }
  assert (Hk : 2 ^ 1 <= 2 ^ (e2 - e1)) by (apply Z.pow_le_mono_r; lia).
  assert (Hp : 2 ^ prec = 2 ^ (prec - 1) * 2 ^ 1).
  { rewrite <- Z.pow_add_r by lia. f_equal. lia. }
  pose proof (Z.pow_pos_nonneg 2 (prec - 1) ltac:(lia) ltac:(lia)).
  nia.
Qed.

Lemma canonical_exponent (m : positive) (e : Z) :
  canonical_mantissa prec emax m e = true -> emin prec emax <= e.
Proof.
  unfold canonical_mantissa, fexp. intros H. apply Z.eqb_eq in H. lia.
Qed.

(** For two values of the format with [x < y], the difference [y - x] is
    positive: at least the smallest positive value. *)
Lemma SFsub_positive (x y : spec_float) :
  valid_binary prec emax x = true -> valid_binary prec emax y = true ->
  SFltb x y = true ->
  at_least_pow2 (emin prec emax) (SFsub prec emax y x).
Proof using prec_pos.
  unfold SFltb.
  destruct x as [sx|sx| |sx mx ex], y as [sy|sy| |sy my ey];
    try discriminate;
    try (destruct sx, sy; try discriminate; intros; exact I);
    try (destruct sx; try discriminate; intros; exact I);
    try (destruct sy; try discriminate; intros; exact I).
  - (* x zero, y finite *)
    destruct sy; try discriminate. intros _ Hy _.
    cbn [SFsub at_least_pow2]. cbn [valid_binary] in Hy.
    unfold bounded in Hy. apply andb_true_iff in Hy. destruct Hy as [Hy _].
    pose proof (canonical_exponent _ _ Hy).
    pose proof (Z.log2_nonneg (Z.pos my)). lia.
  - (* x finite, y zero *)
    destruct sx; try discriminate. intros Hx _ _.
    cbn [SFsub at_least_pow2 negb]. cbn [valid_binary] in Hx.
    unfold bounded in Hx. apply andb_true_iff in Hx. destruct Hx as [Hx _].
    pose proof (canonical_exponent _ _ Hx).
    pose proof (Z.log2_nonneg (Z.pos mx)). lia.
  - (* both finite *)
    cbn [valid_binary]. unfold bounded. intros Hx Hy Hlt.
    apply andb_true_iff in Hx, Hy. destruct Hx as [Hx _], Hy as [Hy _].
    pose proof (canonical_exponent _ _ Hx) as Hex.
    pose proof (canonical_exponent _ _ Hy) as Hey.
    unfold SFsub. cbv zeta.
    rewrite (shl_align_value my ey (Z.min ey ex)) by lia.
    rewrite (shl_align_value mx ex (Z.min ey ex)) by lia.
    set (d := cond_Zopp sy _ - cond_Zopp sx _).
    assert (Hd : 0 < d).
    { subst d. cbn [SFcompare] in Hlt.
      change (Pos.compare_cont Eq mx my) with (Z.compare (Z.pos mx) (Z.pos my))
        in Hlt.
      pose proof (Z.pow_pos_nonneg 2 (ey - Z.min ey ex) ltac:(lia) ltac:(lia)).
      pose proof (Z.pow_pos_nonneg 2 (ex - Z.min ey ex) ltac:(lia) ltac:(lia)).
      destruct sx, sy; cbn [cond_Zopp]; try discriminate; try nia;
        destruct (Z.compare_spec ex ey) as [E|E|E]; try discriminate;
        first
          [ subst ey; rewrite Z.min_id, Z.sub_diag in *;
            destruct (Z.compare_spec (Z.pos mx) (Z.pos my));
            try discriminate; lia
          | pose proof (canonical_lt my mx ey ex Hy Hx E);
            rewrite Z.min_l, Z.sub_diag in * by lia; lia
          | pose proof (canonical_lt mx my ex ey Hx Hy E);
            rewrite Z.min_r, Z.sub_diag in * by lia; lia ]. }
    destruct d as [|p|p]; try lia.
    cbn [binary_normalize].
    apply (binary_round_at_least prec emax prec_pos); [|lia].
    pose proof (Z.log2_nonneg (Z.pos p)). lia.
Qed.

End OrderOfValues.

(** A positive value divided by a positive finite one is not negative. *)
Lemma div_positive (j : Z) (d cs : spec_float) :
  at_least_pow2 j d -> F32.lt F32.zero cs = true -> is_finite cs = true ->
  F32.le F32.zero (F32.div d cs) = true.
Proof.
  intros Hd Hc Hf.
  destruct cs as [sc|sc| |sc mc ec]; try discriminate.
  destruct sc; try discriminate.
  destruct d as [sd|sd| |sd md ed]; cbn [at_least_pow2] in Hd;
    try contradiction; destruct sd; try contradiction.
  - reflexivity.
  - pose proof (SFdiv_not_nan F32.prec F32.emax
                  (S754_finite false md ed) (S754_finite false mc ec)
                  eq_refl eq_refl eq_refl) as Hn.
    unfold F32.div. revert Hn. cbn [SFdiv xorb].
    destruct (SFdiv_core_binary _ _ _ _ _ _) as [[mz ez] lz].
    unfold binary_round_aux.
    destruct (shr_fexp F32.prec F32.emax mz ez lz) as [mrs' e'].
    destruct (shr_fexp F32.prec F32.emax _ e' loc_Exact) as [mrs'' e''].
    destruct (shr_m mrs'') as [|p|p]; try discriminate; try reflexivity.
    now destruct (e'' <=? F32.emax - F32.prec).
Qed.

(** ** PidController: limits *)

(** X1: when the stored output limits are crossed, [posmax < negmax],
    [runControl] returns [negmax] for every input whose sum [p + i + d] is
    a number. *)
Theorem runControl_inverted_limits_return_negmax
    (c : PidController) (time_now : Z) (target measured : spec_float) :
  F32.lt (pos_max_output_ c) (neg_max_output_ c) = true ->
  is_nan (pid_sum c time_now target measured) = false ->
  pid_output (fst (runControl time_now target measured c)) = neg_max_output_ c.
Proof.
  intros H Hs. rewrite runControl_unfold. cbn [fst pid_output].
  now apply clip_inverted.
Qed.

(** With limits [posmax = -1], [negmax = 1] and a sum of 4, the output
    is 1. *)
Lemma runControl_inverted_limits_witness :
  F32.lt (pos_max_output_ (setOutputLimits inverted_limits pid_pi))
         (neg_max_output_ (setOutputLimits inverted_limits pid_pi)) = true
  /\ is_nan (pid_sum (setOutputLimits inverted_limits pid_pi) 2000
                     (F32.of_Z 10) (F32.of_Z 8)) = false
  /\ pid_output (fst (runControl 2000 (F32.of_Z 10) (F32.of_Z 8)
                         (setOutputLimits inverted_limits pid_pi)))
     = F32.of_Z 1.
Proof.
  split; [reflexivity|]. split; [reflexivity|].
  apply (runControl_inverted_limits_return_negmax
           (setOutputLimits inverted_limits pid_pi) 2000
           (F32.of_Z 10) (F32.of_Z 8)); reflexivity.
Defined.

(** X2: with a negative integral error limit [l], every call whose sum
    [integral_error_ + error] is a number leaves the accumulator at [-l],
    a positive value, whatever the error. *)
Theorem runControl_negative_integral_limit
    (c : PidController) (time_now : Z) (target measured : spec_float) :
  F32.lt (integral_error_limit_ c) F32.zero = true ->
  is_nan (F32.add (integral_error_ c) (F32.sub target measured)) = false ->
  integral_error_ (snd (runControl time_now target measured c))
  = F32.opp (integral_error_limit_ c)
  /\ integral_error (fst (runControl time_now target measured c))
     = F32.opp (integral_error_limit_ c).
Proof.
  intros H Hs. rewrite runControl_unfold.
  cbn [fst snd integral_error integral_error_].
  unfold pid_integral, pid_error.
  rewrite (clip_inverted _ _ _ (negative_limit_inverted _ H) Hs). now split.
Qed.

(** With the limit -5 and an error of -2, the accumulator is 5. *)
Lemma runControl_negative_integral_limit_witness :
  F32.lt (integral_error_limit_
            (setIntegralErrorLimit (F32.of_Z (-5)) pid_pi)) F32.zero = true
  /\ integral_error_
       (snd (runControl 2000 (F32.of_Z 8) (F32.of_Z 10)
                        (setIntegralErrorLimit (F32.of_Z (-5)) pid_pi)))
     = F32.of_Z 5.
Proof.
  split; [reflexivity|].
  apply (runControl_negative_integral_limit
           (setIntegralErrorLimit (F32.of_Z (-5)) pid_pi) 2000
           (F32.of_Z 8) (F32.of_Z 10)); reflexivity.
Defined.

Lemma pid_sum_fits
    (c : PidController) (time_now : Z) (target measured : spec_float) :
  fits F32.prec F32.emax (pid_sum c time_now target measured).
Proof.
  unfold pid_sum, pid_p, pid_i, pid_d, F32.add, F32.mul.
  repeat first [apply SFadd_fits | apply SFmul_fits]; reflexivity.
Qed.

(** X3: with the output limits of the one-argument constructor, [max()]
    and [lowest()], the output is the sum [p + i + d] itself, except that
    an infinite sum is replaced by the largest finite [float] of its
    sign; a NaN sum is returned as it is. *)
Theorem runControl_default_limits_saturate
    (c : PidController) (time_now : Z) (target measured : spec_float) :
  getOutputLimits c = unlimited ->
  pid_output (fst (runControl time_now target measured c))
  = saturate (pid_sum c time_now target measured).
Proof.
  intros H. rewrite runControl_unfold. cbn [fst pid_output].
  injection H as -> ->. apply clip_default, pid_sum_fits.
Qed.

(** With [kd = +infinity] and five seconds elapsed the sum is
    [+infinity], and the output is [max()]. *)
Lemma runControl_default_limits_witness :
  getOutputLimits pid_kd_inf = unlimited
  /\ pid_output (fst (runControl 5000 (F32.of_Z 10) (F32.of_Z 8) pid_kd_inf))
     = F32.max_value.
Proof.
  split; [reflexivity|].
  apply (runControl_default_limits_saturate pid_kd_inf 5000
           (F32.of_Z 10) (F32.of_Z 8)). reflexivity.
Defined.

(** ** PidController: calls in sequence *)

Lemma run_call_limit (c : PidController) (k : call) :
  integral_error_limit_ (run_call c k) = integral_error_limit_ c.
Proof. reflexivity. Qed.

Lemma run_call_integral_error (c : PidController) (k : call) :
  integral_error_ (run_call c k)
  = clip (F32.add (integral_error_ c) (call_error k))
         (F32.opp (integral_error_limit_ c)) (integral_error_limit_ c).
Proof. reflexivity. Qed.

(** [runControl] writes [integral_error_] and [time_last_] only. *)
Lemma run_calls_frame (ks : list call) :
  forall c : PidController,
  kp_ (run_calls ks c) = kp_ c
  /\ ki_ (run_calls ks c) = ki_ c
  /\ kd_ (run_calls ks c) = kd_ c
  /\ integral_error_limit_ (run_calls ks c) = integral_error_limit_ c
  /\ pos_max_output_ (run_calls ks c) = pos_max_output_ c
  /\ neg_max_output_ (run_calls ks c) = neg_max_output_ c.
Proof.
  induction ks as [|k ks IH]; intros c; cbn [run_calls fold_left].
  - repeat split.
  - exact (IH (run_call c k)).
Qed.

Lemma run_call_default_integral (c : PidController) (k : call) :
  integral_error_limit_ c = F32.max_value ->
  fits F32.prec F32.emax (integral_error_ c) ->
  valid_call k = true ->
  integral_error_ (run_call c k)
  = saturate (F32.add (integral_error_ c) (call_error k)).
Proof.
  intros Hl Hi Hk. apply andb_true_iff in Hk. destruct Hk as [Ht Hm].
  rewrite run_call_integral_error, Hl. apply clip_default.
  apply SFadd_fits; [reflexivity|exact Hi|].
  apply SFsub_fits; [reflexivity| |]; now apply valid_fits.
Qed.

Lemma run_calls_default_integral_fits (ks : list call) :
  forall c : PidController,
  integral_error_limit_ c = F32.max_value ->
  fits F32.prec F32.emax (integral_error_ c) ->
  forallb valid_call ks = true ->
  fits F32.prec F32.emax (integral_error_ (run_calls ks c)).
Proof.
  induction ks as [|k ks IH]; intros c Hl Hi Hks; cbn [run_calls fold_left].
  - exact Hi.
  - cbn [forallb] in Hks. apply andb_true_iff in Hks. destruct Hks as [Hk Hks].
    apply IH; [exact Hl| |exact Hks].
    rewrite (run_call_default_integral c k Hl Hi Hk).
    apply saturate_fits, SFadd_fits; [reflexivity|exact Hi|].
    apply andb_true_iff in Hk. destruct Hk as [Ht Hm].
    apply SFsub_fits; [reflexivity| |]; now apply valid_fits.
Qed.

(** X4: with the integral error limit both constructors set, [max()],
    and [float] arguments, the accumulator is the running sum of the
    errors at every call: the two tests of the anti-windup change it only
    when the sum has overflowed to an infinity, which they replace by the
    largest finite [float] of its sign. *)
Theorem default_integral_limit_only_stops_infinities
    (c : PidController) (ks : list call) (k : call) :
  getIntegralErrorLimit c = F32.max_value ->
  F32.valid (integral_error_ c) = true ->
  forallb valid_call ks = true -> valid_call k = true ->
  integral_error_ (run_call (run_calls ks c) k)
  = saturate (F32.add (integral_error_ (run_calls ks c)) (call_error k)).
Proof.
  intros Hl Hi Hks Hk. apply run_call_default_integral.
  - destruct (run_calls_frame ks c) as (_ & _ & _ & H & _). now rewrite H.
  - apply run_calls_default_integral_fits; [exact Hl| |exact Hks].
    now apply valid_fits.
  - exact Hk.
Qed.

(** After [two_calls] the accumulator is 3; an error of [+infinity] then
    leaves it at [max()]. *)
Lemma default_integral_limit_witness :
  integral_error_ (run_call (run_calls two_calls pid_pi) overflowing_call)
  = F32.max_value.
Proof.
  apply (default_integral_limit_only_stops_infinities pid_pi two_calls
           overflowing_call); reflexivity.
Defined.

(** A NaN in the accumulator or in the error makes the new accumulator a
    NaN. *)
Lemma nan_integral (c : PidController) (target measured : spec_float) :
  is_nan (integral_error_ c) || is_nan (F32.sub target measured) = true ->
  is_nan (pid_integral c target measured) = true.
Proof.
  intros H. unfold pid_integral, pid_error.
  assert (Hs : is_nan (F32.add (integral_error_ c) (F32.sub target measured))
               = true).
  { apply orb_true_iff in H. destruct H as [H|H];
      rewrite (is_nan_eq _ H); [reflexivity|now rewrite add_nan_r]. }
  now rewrite clip_nan.
Qed.

Lemma invoke_nan (c : PidController) (m : method) :
  is_nan (integral_error_ c) = true ->
  is_nan (integral_error_ (invoke c m)) = true.
Proof.
  intros H. destruct m as [k|g|l|e]; cbn [invoke]; try exact H.
  rewrite run_call_integral. apply nan_integral. now rewrite H.
Qed.

Lemma invoke_all_nan (ms : list method) :
  forall c : PidController,
  is_nan (integral_error_ c) = true ->
  is_nan (integral_error_ (invoke_all ms c)) = true.
Proof.
  induction ms as [|m ms IH]; intros c H; cbn [invoke_all fold_left].
  - exact H.
  - apply IH. now apply invoke_nan.
Qed.

Lemma nan_integral_nan_output
    (c : PidController) (time_now : Z) (target measured : spec_float) :
  is_nan (integral_error_ c) = true ->
  is_nan (pid_output (fst (runControl time_now target measured c))) = true.
Proof.
  intros H. rewrite runControl_unfold. cbn [fst pid_output].
  assert (Hs : is_nan (pid_sum c time_now target measured) = true).
  { unfold pid_sum, pid_i.
    rewrite (is_nan_eq _ (nan_integral c target measured
                            ltac:(now rewrite H))).
    now rewrite mul_nan_l, add_nan_r, add_nan_l. }
  now rewrite clip_nan.
Qed.

(** X5: one call of [runControl] whose error is a NaN spoils the object
    for good.  After it, through any further calls of [runControl],
    [setGains], [setOutputLimits] and [setIntegralErrorLimit], the
    accumulator is a NaN, and every [runControl] returns a NaN output,
    whatever its arguments: no method resets the accumulator. *)
Theorem nan_error_poisons_controller
    (c : PidController) (k : call) (ms : list method)
    (time_now : Z) (target measured : spec_float) :
  is_nan (call_error k) = true ->
  is_nan (integral_error_ (invoke_all ms (run_call c k))) = true
  /\ is_nan (pid_output
               (fst (runControl time_now target measured
                                (invoke_all ms (run_call c k))))) = true.
Proof.
  intros H.
  assert (H0 : is_nan (integral_error_ (run_call c k)) = true).
  { rewrite run_call_integral. apply nan_integral.
    unfold call_error in H. rewrite H. apply orb_true_r. }
  split.
  - now apply invoke_all_nan.
  - now apply nan_integral_nan_output, invoke_all_nan.
Qed.

(** A NaN target, then the three setters and two ordinary calls: a call
    on target still returns a NaN. *)
Lemma nan_error_poisons_controller_witness :
  is_nan (call_error nan_reading) = true
  /\ is_nan (integral_error_
               (invoke_all (reconfiguration ++ map RunControl two_calls)
                           (run_call pid_pi nan_reading))) = true
  /\ is_nan (pid_output
       (fst (runControl 9000 (F32.of_Z 1) (F32.of_Z 1)
          (invoke_all (reconfiguration ++ map RunControl two_calls)
                      (run_call pid_pi nan_reading))))) = true.
Proof.
  split; [reflexivity|].
  apply (nan_error_poisons_controller pid_pi nan_reading
           (reconfiguration ++ map RunControl two_calls)
           9000 (F32.of_Z 1) (F32.of_Z 1)).
  reflexivity.
Defined.

(** X6: the accumulator depends on the errors of the calls and on the
    integral error limit alone: not on the times of the calls (the error
    is added once per call, not weighted by the elapsed time), not on the
    gains, and not on the output limits (a clipped output does not hold
    the integration back). *)
Theorem integral_ignores_time_and_gains (ks ks' : list call) :
  forall c c' : PidController,
  map call_error ks = map call_error ks' ->
  integral_error_ c = integral_error_ c' ->
  integral_error_limit_ c = integral_error_limit_ c' ->
  integral_error_ (run_calls ks c) = integral_error_ (run_calls ks' c').
Proof.
  revert ks'. induction ks as [|k ks IH]; intros [|k' ks'] c c' Hks Hi Hl;
    try discriminate; cbn [run_calls fold_left].
  - exact Hi.
  - injection Hks as Hk Hks. apply (IH ks' _ _ Hks).
    + rewrite !run_call_integral_error. now rewrite Hk, Hi, Hl.
    + now rewrite !run_call_limit.
Qed.

(** Errors 2 and 1, at 1.5 s and 3 s with gains [{1, 1, 0}], and at 7 ms
    and 900 s with gains [{0, 0, 1}]: the same accumulator. *)
Lemma integral_ignores_time_and_gains_witness :
  map call_error two_calls = map call_error retimed_calls
  /\ integral_error_ (run_calls two_calls pid_pi)
     = integral_error_ (run_calls retimed_calls pid_d_only).
Proof.
  split; [reflexivity|].
  apply (integral_ignores_time_and_gains two_calls retimed_calls
           pid_pi pid_d_only); reflexivity.
Defined.

(** X7: [runControl] never changes the configuration: after any number
    of calls [getGains], [getOutputLimits] and [getIntegralErrorLimit]
    return what they returned before. *)
Theorem runControl_keeps_configuration (ks : list call) (c : PidController) :
  getGains (run_calls ks c) = getGains c
  /\ getOutputLimits (run_calls ks c) = getOutputLimits c
  /\ getIntegralErrorLimit (run_calls ks c) = getIntegralErrorLimit c.
Proof.
  destruct (run_calls_frame ks c) as (H1 & H2 & H3 & H4 & H5 & H6).
  unfold getGains, getOutputLimits, getIntegralErrorLimit.
  now rewrite H1, H2, H3, H4, H5, H6.
Qed.

Lemma setters_keep_state (ms : list method) :
  forall c : PidController,
  forallb is_setter ms = true ->
  integral_error_ (invoke_all ms c) = integral_error_ c
  /\ time_last_ (invoke_all ms c) = time_last_ c.
Proof.
  induction ms as [|m ms IH]; intros c H; cbn [invoke_all fold_left].
  - now split.
  - cbn [forallb] in H. apply andb_true_iff in H. destruct H as [Hm Hms].
    destruct (IH (invoke c m) Hms) as [H1 H2].
    fold (invoke_all ms (invoke c m)). rewrite H1, H2.
    destruct m; try discriminate; now split.
Qed.

(** X8: the setters reset neither the clock nor the accumulator.  After
    any calls of [setGains], [setOutputLimits] and
    [setIntegralErrorLimit], the next [runControl] reports the same [dt]
    as it would have without them, and integrates from the accumulator as
    it was, clipping it against the limit now stored. *)
Theorem setters_do_not_reset_the_controller
    (ms : list method) (c : PidController)
    (time_now : Z) (target measured : spec_float) :
  forallb is_setter ms = true ->
  dt (fst (runControl time_now target measured (invoke_all ms c)))
  = dt (fst (runControl time_now target measured c))
  /\ integral_error (fst (runControl time_now target measured
                                     (invoke_all ms c)))
     = clip (F32.add (integral_error_ c) (F32.sub target measured))
            (F32.opp (getIntegralErrorLimit (invoke_all ms c)))
            (getIntegralErrorLimit (invoke_all ms c)).
Proof.
  intros H. destruct (setters_keep_state ms c H) as [H1 H2].
  rewrite !runControl_unfold. cbn [fst dt integral_error].
  unfold whole_seconds, pid_integral, pid_error, getIntegralErrorLimit.
  now rewrite H1, H2.
Qed.

(** After [two_calls], the last at 3 s, with the accumulator at 3: the
    three setters, then a call at 5 s with error 2, which reports
    [dt = 2] and an accumulator of 5. *)
Lemma setters_do_not_reset_witness :
  forallb is_setter reconfiguration = true
  /\ dt (fst (runControl 5000 (F32.of_Z 10) (F32.of_Z 8)
                (invoke_all reconfiguration (run_calls two_calls pid_pi))))
     = F32.of_Z 2
  /\ integral_error (fst (runControl 5000 (F32.of_Z 10) (F32.of_Z 8)
                (invoke_all reconfiguration (run_calls two_calls pid_pi))))
     = F32.of_Z 5.
Proof.
  split; [reflexivity|].
  destruct (setters_do_not_reset_the_controller reconfiguration
              (run_calls two_calls pid_pi) 5000 (F32.of_Z 10) (F32.of_Z 8)
              eq_refl) as [H1 H2].
  split; [rewrite H1|rewrite H2]; reflexivity.
Defined.

(** ** limitAcceleration: on target, and negative limits *)
Section SteadyState.

Variables measured limit dt : spec_float.
Hypothesis measured_finite : is_finite measured = true.
Hypothesis dt_finite : is_finite dt = true.
Hypothesis dt_not_zero : is_zero dt = false.
Hypothesis limit_not_negative : F32.le F32.zero limit = true.

Lemma zero_acceleration :
  exists s, clipped_acceleration measured measured limit dt = S754_zero s.
Proof using measured_finite dt_finite dt_not_zero limit_not_negative.
  unfold clipped_acceleration. rewrite (sub_same measured measured_finite).
  destruct dt as [sd|sd| |sd md ed]; try discriminate.
  exists (xorb false sd).
  destruct limit as [sl|sl| |sl ml el]; try discriminate;
    destruct sl; try discriminate; destruct sd; reflexivity.
Qed.

Lemma limit_axis_steady :
  F32.eq (limit_axis measured measured limit dt) measured = true.
Proof using measured_finite dt_finite dt_not_zero limit_not_negative.
  unfold limit_axis. destruct zero_acceleration as [s ->].
  destruct dt as [sd|sd| |sd md ed]; try discriminate.
  destruct measured as [sm|sm| |sm mm em]; try discriminate.
  - now destruct sm, s, sd.
  - change (F32.add (S754_finite sm mm em)
                    (F32.mul (S754_zero s) (S754_finite sd md ed)))
      with (S754_finite sm mm em).
    now apply feq_refl.
Qed.

End SteadyState.

(** X9: on target nothing moves.  When the target velocities are the
    measured ones, these are finite, [dt] is finite and not zero, and no
    limit is negative, [limitAcceleration] returns velocities equal to
    the measured ones. *)
Theorem limitAcceleration_steady_state
    (measured limits : robot_velocities) (dt : spec_float) :
  is_finite (linear_velocity measured) = true ->
  is_finite (angular_velocity measured) = true ->
  is_finite dt = true -> is_zero dt = false ->
  F32.le F32.zero (linear_velocity limits) = true ->
  F32.le F32.zero (angular_velocity limits) = true ->
  F32.eq (linear_velocity (limitAcceleration measured measured limits dt))
         (linear_velocity measured) = true
  /\ F32.eq (angular_velocity (limitAcceleration measured measured limits dt))
            (angular_velocity measured) = true.
Proof.
  intros Hl Ha Hdt Hz Hll Hla. rewrite limitAcceleration_unfold.
  cbn [linear_velocity angular_velocity].
  split; now apply limit_axis_steady.
Qed.

Lemma limitAcceleration_steady_state_witness :
  F32.eq (linear_velocity
            (limitAcceleration measured_5_3 measured_5_3 scenario_limits
                               scenario_dt))
         (F32.of_Z 5) = true
  /\ F32.eq (angular_velocity
               (limitAcceleration measured_5_3 measured_5_3 scenario_limits
                                  scenario_dt))
            (F32.of_Z 3) = true.
Proof.
  apply (limitAcceleration_steady_state measured_5_3 scenario_limits
           scenario_dt); reflexivity.
Defined.

Lemma limit_axis_negative_limit (target measured limit dt : spec_float) :
  F32.lt limit F32.zero = true ->
  is_nan (F32.div (F32.sub target measured) dt) = false ->
  limit_axis target measured limit dt
  = F32.add measured (F32.mul (F32.opp limit) dt).
Proof.
  intros H Ha. unfold limit_axis, clipped_acceleration.
  now rewrite (clip_inverted _ _ _ (negative_limit_inverted _ H) Ha).
Qed.

(** X10: with negative limits the target plays no part.  Each proposed
    acceleration that is a number is replaced by the opposite of its
    limit, so the result is [measured + (-limit) * dt] on both axes:
    the velocity is pushed upwards by [|limit| * dt], also when the
    target is below it. *)
Theorem limitAcceleration_negative_limits
    (target measured limits : robot_velocities) (dt : spec_float) :
  F32.lt (linear_velocity limits) F32.zero = true ->
  F32.lt (angular_velocity limits) F32.zero = true ->
  is_nan (F32.div (F32.sub (linear_velocity target)
                           (linear_velocity measured)) dt) = false ->
  is_nan (F32.div (F32.sub (angular_velocity target)
                           (angular_velocity measured)) dt) = false ->
  limitAcceleration target measured limits dt
  = {| linear_velocity :=
         F32.add (linear_velocity measured)
                 (F32.mul (F32.opp (linear_velocity limits)) dt);
       angular_velocity :=
         F32.add (angular_velocity measured)
                 (F32.mul (F32.opp (angular_velocity limits)) dt) |}.
Proof.
  intros Hl Ha Hpl Hpa. rewrite limitAcceleration_unfold.
  now rewrite !limit_axis_negative_limit.
Qed.

(** Measured [{5, 3}], target [{-7, 3}], limits [{-2, -1}], [dt = 1]:
    the result is [{7, 4}]. *)
Lemma limitAcceleration_negative_limits_witness :
  limitAcceleration (velocities (F32.of_Z (-7)) (F32.of_Z 3))
                    (velocities (F32.of_Z 5) (F32.of_Z 3))
                    negative_limits (F32.of_Z 1)
  = velocities (F32.of_Z 7) (F32.of_Z 4).
Proof.
  apply (limitAcceleration_negative_limits
           (velocities (F32.of_Z (-7)) (F32.of_Z 3))
           (velocities (F32.of_Z 5) (F32.of_Z 3))
           negative_limits (F32.of_Z 1)); reflexivity.
Defined.

(** ** computeVelocitiesFromWheelspeeds: NaN speeds, order and symmetry *)

Lemma computeVelocities_unfold (K : spec_float) (w : motor_data)
    (g : robot_geometry) :
  computeVelocitiesFromWheelspeeds K w g =
  {| linear_velocity :=
       std_min (left_travel_rate K w g) (right_travel_rate K w g);
     angular_velocity :=
       F32.div (F32.sub (right_travel_rate K w g) (left_travel_rate K w g))
               (stance_circumference g) |}.
Proof. reflexivity. Qed.

(** [std::min(a, b)] is [a] when [b] is a NaN, and a NaN when [a] is. *)
Lemma std_min_nan_r (a b : spec_float) : is_nan b = true -> std_min a b = a.
Proof. intros H. unfold std_min. now rewrite (nan_flt_l b a H). Qed.

Lemma std_min_nan_l (a b : spec_float) :
  is_nan a = true -> is_nan (std_min a b) = true.
Proof. intros H. unfold std_min. now rewrite (nan_flt_r b a H). Qed.

Lemma travel_rate_nan (K w : spec_float) (g : robot_geometry) :
  is_nan w = true -> is_nan (travel_rate K w g) = true.
Proof. intros H. now rewrite (is_nan_eq w H). Qed.

(** X11: a NaN speed of a rear wheel is ignored: the velocities are those
    computed with the front speed of that side in its place. *)
Theorem nan_rear_speed_is_ignored
    (K : spec_float) (w : motor_data) (g : robot_geometry) :
  computeVelocitiesFromWheelspeeds K w g
  = computeVelocitiesFromWheelspeeds K (without_nan_rear w) g.
Proof.
  rewrite !computeVelocities_unfold.
  unfold left_travel_rate, right_travel_rate, without_nan_rear.
  cbn [fl fr rl rr].
  assert (H : forall a b,
             std_min a (if is_nan b then a else b) = std_min a b).
  { intros a b. destruct (is_nan b) eqn:E; [|reflexivity].
    now rewrite std_min_same, std_min_nan_r. }
  now rewrite !H.
Qed.

(** X12: a NaN speed of a front wheel is not.  On the left it makes both
    velocities NaN.  On the right it makes the angular velocity a NaN,
    while the linear velocity is the left travel rate: the side without
    a reading is left out of the minimum. *)
Theorem nan_front_speed_is_not_ignored
    (K : spec_float) (w : motor_data) (g : robot_geometry) :
  (is_nan (fl w) = true ->
   is_nan (linear_velocity (computeVelocitiesFromWheelspeeds K w g)) = true
   /\ is_nan (angular_velocity (computeVelocitiesFromWheelspeeds K w g))
      = true)
  /\ (is_nan (fr w) = true ->
      linear_velocity (computeVelocitiesFromWheelspeeds K w g)
      = left_travel_rate K w g
      /\ is_nan (angular_velocity (computeVelocitiesFromWheelspeeds K w g))
         = true).
Proof.
  rewrite computeVelocities_unfold. cbn [linear_velocity angular_velocity].
  split; intros H.
  - assert (Hl : left_travel_rate K w g = S754_nan).
    { apply is_nan_eq, travel_rate_nan. now apply std_min_nan_l. }
    rewrite Hl. split.
    + now apply std_min_nan_l.
    + now rewrite sub_nan_right, div_nan_l.
  - assert (Hr : right_travel_rate K w g = S754_nan).
    { apply is_nan_eq, travel_rate_nan. now apply std_min_nan_l. }
    rewrite Hr. split.
    + now apply std_min_nan_r.
    + now rewrite sub_nan_l, div_nan_l.
Qed.

(** X13: when both travel rates are numbers, the linear velocity is not
    above either of them. *)
Theorem linear_velocity_is_the_lower_rate
    (K : spec_float) (w : motor_data) (g : robot_geometry) :
  is_nan (left_travel_rate K w g) = false ->
  is_nan (right_travel_rate K w g) = false ->
  F32.le (linear_velocity (computeVelocitiesFromWheelspeeds K w g))
         (left_travel_rate K w g) = true
  /\ F32.le (linear_velocity (computeVelocitiesFromWheelspeeds K w g))
            (right_travel_rate K w g) = true.
Proof.
  intros Hl Hr. rewrite computeVelocities_unfold. cbn [linear_velocity].
  unfold std_min.
  destruct (F32.lt (right_travel_rate K w g) (left_travel_rate K w g)) eqn:E.
  - split; [now apply flt_fle|now apply fle_refl].
  - split; [now apply fle_refl|now apply not_flt_fle].
Qed.

Lemma linear_velocity_is_the_lower_rate_witness :
  F32.le (linear_velocity
            (computeVelocitiesFromWheelspeeds RPM_TO_RADS_SEC_nominal
               turning_left scenario_geometry))
         (left_travel_rate RPM_TO_RADS_SEC_nominal turning_left
                           scenario_geometry) = true
  /\ F32.le (linear_velocity
               (computeVelocitiesFromWheelspeeds RPM_TO_RADS_SEC_nominal
                  turning_left scenario_geometry))
            (right_travel_rate RPM_TO_RADS_SEC_nominal turning_left
                               scenario_geometry) = true.
Proof.
  apply (linear_velocity_is_the_lower_rate RPM_TO_RADS_SEC_nominal
           turning_left scenario_geometry); reflexivity.
Defined.

Lemma std_min_swap (a b : spec_float) :
  is_nan a = false -> is_nan b = false ->
  F32.eq (std_min b a) (std_min a b) = true.
Proof.
  intros Ha Hb. unfold std_min.
  destruct (F32.lt b a) eqn:E1, (F32.lt a b) eqn:E2;
    try (now apply feq_refl).
  - now rewrite (fle_not_flt _ _ (flt_fle _ _ E1)) in E2.
  - revert E1 E2. unfold F32.lt, F32.eq, SFltb, SFeqb.
    rewrite (SFcompare_swap b a).
    destruct (SFcompare_defined b a Hb Ha) as [c ->].
    now destruct c.
Qed.

Lemma div_zeros (z z' cs : spec_float) :
  is_zero z = true -> is_zero z' = true ->
  is_nan (F32.div z cs) = false ->
  F32.eq (F32.div z' cs) (F32.opp (F32.div z cs)) = true.
Proof.
  destruct z as [s| | |]; try discriminate.
  destruct z' as [s'| | |]; try discriminate. intros _ _.
  destruct cs as [sc|sc| |sc mc ec]; try discriminate; reflexivity.
Qed.

(** X14: exchanging the wheel speeds of the two sides negates the angular
    velocity and keeps the linear one, whenever the angular velocity is
    a number. *)
Theorem mirrored_wheel_speeds_negate_turn
    (K : spec_float) (w : motor_data) (g : robot_geometry) :
  is_nan (angular_velocity (computeVelocitiesFromWheelspeeds K w g)) = false ->
  F32.eq (angular_velocity
            (computeVelocitiesFromWheelspeeds K (mirrored w) g))
         (F32.opp (angular_velocity
                     (computeVelocitiesFromWheelspeeds K w g))) = true
  /\ F32.eq (linear_velocity
               (computeVelocitiesFromWheelspeeds K (mirrored w) g))
            (linear_velocity (computeVelocitiesFromWheelspeeds K w g)) = true.
Proof.
  rewrite !computeVelocities_unfold. cbn [linear_velocity angular_velocity].
  change (left_travel_rate K (mirrored w) g) with (right_travel_rate K w g).
  change (right_travel_rate K (mirrored w) g) with (left_travel_rate K w g).
  set (l := left_travel_rate K w g). set (r := right_travel_rate K w g).
  clearbody l r. intros H. split.
  - destruct (SFsub_swap F32.prec F32.emax r l) as [E|[E1 E2]].
    + fold (F32.sub l r) (F32.sub r l) in E. rewrite E.
      unfold F32.div, F32.opp at 1. rewrite SFdiv_opp.
      apply feq_refl. fold (F32.div (F32.sub r l) (stance_circumference g)).
      now destruct (F32.div (F32.sub r l) (stance_circumference g)).
    + now apply div_zeros.
  - assert (Hr : is_nan r = false /\ is_nan l = false).
    { destruct (is_nan r) eqn:Er.
      - rewrite (is_nan_eq r Er), sub_nan_l, div_nan_l in H. discriminate.
      - destruct (is_nan l) eqn:El; [|now split].
        rewrite (is_nan_eq l El), sub_nan_right, div_nan_l in H.
        discriminate. }
    now apply std_min_swap.
Qed.

Lemma mirrored_wheel_speeds_witness :
  F32.eq (angular_velocity
            (computeVelocitiesFromWheelspeeds RPM_TO_RADS_SEC_nominal
               (mirrored turning_left) scenario_geometry))
         (F32.opp (angular_velocity
                     (computeVelocitiesFromWheelspeeds RPM_TO_RADS_SEC_nominal
                        turning_left scenario_geometry))) = true
  /\ F32.eq (linear_velocity
               (computeVelocitiesFromWheelspeeds RPM_TO_RADS_SEC_nominal
                  (mirrored turning_left) scenario_geometry))
            (linear_velocity
               (computeVelocitiesFromWheelspeeds RPM_TO_RADS_SEC_nominal
                  turning_left scenario_geometry)) = true.
Proof.
  apply (mirrored_wheel_speeds_negate_turn RPM_TO_RADS_SEC_nominal
           turning_left scenario_geometry). reflexivity.
Defined.

(** X15: the faster side sets the direction of the turn.  For a geometry
    with strictly positive [wheel_base] and [intra_axle_distance] and a
    finite stance circumference: when the right travel rate is above the
    left one the angular velocity is a number and not negative, and when
    the left one is above the right one it is a number and not
    positive. *)
Theorem faster_side_sets_turn_direction
    (K : spec_float) (w : motor_data) (g : robot_geometry) :
  F32.valid (wheel_base g) = true ->
  F32.valid (intra_axle_distance g) = true ->
  F32.lt F32.zero (wheel_base g) = true ->
  F32.lt F32.zero (intra_axle_distance g) = true ->
  is_finite (stance_circumference g) = true ->
  (F32.lt (left_travel_rate K w g) (right_travel_rate K w g) = true ->
   F32.le F32.zero
          (angular_velocity (computeVelocitiesFromWheelspeeds K w g)) = true)
  /\ (F32.lt (right_travel_rate K w g) (left_travel_rate K w g) = true ->
      F32.le (angular_velocity (computeVelocitiesFromWheelspeeds K w g))
             F32.zero = true).
Proof.
  intros Hbv Hav Hbp Hap Hcs.
  pose proof (stance_circumference_positive g Hbv Hav Hbp Hap) as Hpos.
  rewrite computeVelocities_unfold. cbn [angular_velocity].
  assert (Hl : F32.valid (left_travel_rate K w g) = true)
    by apply round_valid.
  assert (Hr : F32.valid (right_travel_rate K w g) = true)
    by apply round_valid.
  set (l := left_travel_rate K w g) in *.
  set (r := right_travel_rate K w g) in *.
  split; intros Hlt.
  - apply (div_positive (emin F32.prec F32.emax)); [|exact Hpos|exact Hcs].
    now apply (SFsub_positive F32.prec F32.emax eq_refl).
  - pose proof (SFsub_positive F32.prec F32.emax eq_refl r l Hr Hl Hlt) as Hd.
    fold (F32.sub l r) in Hd.
    destruct (SFsub_swap F32.prec F32.emax l r) as [E|[E _]].
    + fold (F32.sub r l) (F32.sub l r) in E. rewrite E.
      unfold F32.div. rewrite SFdiv_opp. apply opp_fle_zero.
      now apply (div_positive (emin F32.prec F32.emax)).
    + fold (F32.sub l r) in E.
      destruct (F32.sub l r) as [s|s| |s m e]; try discriminate.
      contradiction.
Qed.

(** Left wheels at 40 and 50 rpm against right wheels at 80 and 70 rpm,
    and the same with the sides exchanged. *)
Lemma faster_side_sets_turn_direction_witness :
  F32.le F32.zero
         (angular_velocity
            (computeVelocitiesFromWheelspeeds RPM_TO_RADS_SEC_nominal
               turning_left scenario_geometry)) = true
  /\ F32.le (angular_velocity
               (computeVelocitiesFromWheelspeeds RPM_TO_RADS_SEC_nominal
                  (mirrored turning_left) scenario_geometry))
            F32.zero = true.
Proof.
  split.
  - apply (proj1 (faster_side_sets_turn_direction RPM_TO_RADS_SEC_nominal
                    turning_left scenario_geometry
                    eq_refl eq_refl eq_refl eq_refl eq_refl)).
    reflexivity.
  - apply (proj2 (faster_side_sets_turn_direction RPM_TO_RADS_SEC_nominal
                    (mirrored turning_left) scenario_geometry
                    eq_refl eq_refl eq_refl eq_refl eq_refl)).
    reflexivity.
Defined.

(** ** SkidRobotMotionController: the default constructor *)

